(** * aws-sqs-send-message: a shallow embedding of [sqs.ts] and [index.ts]

    The action validates one message configuration, builds the input of a
    [SendMessageCommand], submits it once and reports the outcome.  The
    embedding follows the TypeScript source function by function:

    - JavaScript strings are sequences of UTF-16 code units ([JSString]);
    - exceptions are an explicit [Result] ([Return] or [Throw]);
    - the calls into [@actions/core] and the one call of the SQS client are
      recorded as a trace of [Event]s next to the result ([Action]);
    - the built-ins the source calls ([RegExp.prototype.test], [JSON.parse],
      [Buffer.byteLength], [Buffer.from(_, 'base64')], [parseInt], [String])
      are modelled after ECMAScript and Node.js. *)

From Stdlib Require Import Ascii String List ZArith NArith Bool Lia.
Import ListNotations.
Local Open Scope N_scope.

Set Implicit Arguments.
Set Warnings "-register-all".

(** ** JavaScript strings *)

(** A JavaScript string is a sequence of 16-bit code units. *)
Definition JSString := list N.

(** The code units of an ASCII literal. *)
Definition js (s : string) : JSString :=
  map N_of_ascii (list_ascii_of_string s).

(** Same, reading an apostrophe as a double quote (for literals that hold
    JSON text). *)
Definition jsq (s : string) : JSString :=
  map (fun c => if c =? 39 then 34 else c) (js s).

Definition dquote : JSString := [34].

Fixpoint jseq (a b : JSString) : bool :=
  match a, b with
  | [], [] => true
  | x :: a', y :: b' => (x =? y) && jseq a' b'
  | _, _ => false
  end.

(** [String.prototype.endsWith]. *)
Definition endsWith (s suffix : JSString) : bool :=
  let n := length s in
  let k := length suffix in
  (k <=? n)%nat && jseq (skipn (n - k) s) suffix.

(** Truthiness of a string: only the empty string is falsy. *)
Definition nonempty (s : JSString) : bool :=
  match s with [] => false | _ => true end.

(** Truthiness of an optional string ([string | undefined]). *)
Definition truthy (o : option JSString) : bool :=
  match o with Some s => nonempty s | None => false end.

(** [x || undefined] on a string: the empty string becomes [undefined]. *)
Definition orUndefined (s : JSString) : option JSString :=
  if nonempty s then Some s else None.

(** Decimal digits of a natural number, as [String(n)] prints an integer
    below 2^53. *)
Fixpoint digits_fuel (fuel : nat) (n : N) (acc : JSString) : JSString :=
  match fuel with
  | O => acc
  | S fuel' =>
      let acc' := (48 + n mod 10) :: acc in
      if n / 10 =? 0 then acc' else digits_fuel fuel' (n / 10) acc'
  end.

Definition decimal (n : N) : JSString :=
  digits_fuel (S (N.to_nat (N.log2 n))) n [].

(** ** Regular expressions *)

(** The fragment of ECMAScript patterns the source uses, over code units
    (no [u] flag): literals, classes, sequence, alternative, iteration. *)
Inductive regex : Type :=
| Void
| Eps
| Chr (p : N -> bool)
| Seq (r1 r2 : regex)
| Alt (r1 r2 : regex)
| Star (r : regex).

Definition Plus (r : regex) : regex := Seq r (Star r).
Definition Opt (r : regex) : regex := Alt r Eps.

Fixpoint Lit (s : JSString) : regex :=
  match s with
  | [] => Eps
  | c :: s' => Seq (Chr (N.eqb c)) (Lit s')
  end.

(** The words of a pattern. *)
Inductive Matches : regex -> JSString -> Prop :=
| MEps : Matches Eps []
| MChr p c : p c = true -> Matches (Chr p) [c]
| MSeq r1 r2 s1 s2 : Matches r1 s1 -> Matches r2 s2 -> Matches (Seq r1 r2) (s1 ++ s2)
| MAltL r1 r2 s : Matches r1 s -> Matches (Alt r1 r2) s
| MAltR r1 r2 s : Matches r2 s -> Matches (Alt r1 r2) s
| MStar0 r : Matches (Star r) []
| MStarS r s1 s2 : Matches r s1 -> Matches (Star r) s2 -> Matches (Star r) (s1 ++ s2).

Fixpoint nullable (r : regex) : bool :=
  match r with
  | Void => false
  | Eps => true
  | Chr _ => false
  | Seq r1 r2 => nullable r1 && nullable r2
  | Alt r1 r2 => nullable r1 || nullable r2
  | Star _ => true
  end.

Fixpoint deriv (c : N) (r : regex) : regex :=
  match r with
  | Void => Void
  | Eps => Void
  | Chr p => if p c then Eps else Void
  | Seq r1 r2 =>
      if nullable r1 then Alt (Seq (deriv c r1) r2) (deriv c r2)
      else Seq (deriv c r1) r2
  | Alt r1 r2 => Alt (deriv c r1) (deriv c r2)
  | Star r1 => Seq (deriv c r1) (Star r1)
  end.

(** Whole-string matching: what [/^r$/.test(s)] computes for a pattern
    without flags. *)
Fixpoint regex_test (r : regex) (s : JSString) : bool :=
  match s with
  | [] => nullable r
  | c :: s' => regex_test (deriv c r) s'
  end.

(** ** Numbers *)

(** A Number that [JSON.parse] can produce: a finite binary64 value
    [(-1)^neg * m * 2^e], kept canonical ([m = 0 /\ e = 0], or
    [2^52 <= m < 2^53 /\ -1074 <= e <= 971], or [m < 2^52 /\ e = -1074]),
    or an infinity (a literal beyond the finite range). *)
Inductive JSNumber : Type :=
| Finite (neg : bool) (m : N) (e : Z)
| Infinite (neg : bool).

(** [p / q] rounded to the nearest integer, ties to even. *)
Definition div_round_even (p q : N) : N :=
  let d := p / q in
  match (2 * (p mod q)) ?= q with
  | Lt => d
  | Gt => d + 1
  | Eq => if N.even d then d else d + 1
  end.

(** The binary64 value nearest to the rational [p / q] ([q > 0]), ties to
    even: the rounding ECMAScript applies to the value of a literal. *)
Definition float_of_ratio (neg : bool) (p q : N) : JSNumber :=
  if p =? 0 then Finite neg 0 0 else
  let l := (Z.of_N (N.log2 p) - Z.of_N (N.log2 q))%Z in
  let ge := if (0 <=? l)%Z then q * 2 ^ Z.to_N l <=? p
            else q <=? p * 2 ^ Z.to_N (- l) in
  let b := if ge then l else (l - 1)%Z in
  let E := Z.max (b - 52) (-1074) in
  let M := if (0 <=? E)%Z then div_round_even p (q * 2 ^ Z.to_N E)
           else div_round_even (p * 2 ^ Z.to_N (- E)) q in
  let ME := if M =? 2 ^ 53 then (2 ^ 52, (E + 1)%Z) else (M, E) in
  if fst ME =? 0 then Finite neg 0 0
  else if (971 <? snd ME)%Z then Infinite neg
  else Finite neg (fst ME) (snd ME).

(** The Number for [d * 10^x]. *)
Definition float_of_decimal (neg : bool) (d : N) (x : Z) : JSNumber :=
  if (0 <=? x)%Z then float_of_ratio neg (d * 10 ^ Z.to_N x) 1
  else float_of_ratio neg d (10 ^ Z.to_N (- x)).

Definition JSNumber_eqb (a b : JSNumber) : bool :=
  match a, b with
  | Finite n1 m1 e1, Finite n2 m2 e2 => Bool.eqb n1 n2 && (m1 =? m2) && (e1 =? e2)%Z
  | Infinite n1, Infinite n2 => Bool.eqb n1 n2
  | _, _ => false
  end.

(** [ToBoolean] of a Number: zero is falsy. *)
Definition Number_truthy (n : JSNumber) : bool :=
  match n with
  | Finite _ m _ => negb (m =? 0)
  | Infinite _ => true
  end.

(** *** [Number::toString] *)

(** The [n] with [10^(n-1) <= p/q < 10^n], for [p/q > 0]. *)
Fixpoint scale_up (fuel : nat) (p q : N) (t : Z) : Z :=
  match fuel with
  | O => t
  | S fuel' => if q <=? p then t else scale_up fuel' (p * 10) q (t - 1)%Z
  end.

Definition decimal_exponent (p q : N) : Z :=
  if q <=? p then Z.of_nat (length (decimal (p / q)))
  else scale_up 400 (p * 10) q 0.

(** For [k] digits: the [k]-digit integers [s] next to [p/q * 10^(k-n)];
    one is kept when [s * 10^(n-k)] rounds back to the number, the nearer
    one when both do. *)
Definition digits_candidate (m : N) (e : Z) (p q : N) (n : Z) (k : nat)
  : option (N * Z) :=
  let x := (n - Z.of_nat k)%Z in
  let num := if (x <=? 0)%Z then p * 10 ^ Z.to_N (- x) else p in
  let den := if (x <=? 0)%Z then q else q * 10 ^ Z.to_N x in
  let lo := num / den in
  let hi := lo + 1 in
  let ok s := JSNumber_eqb (float_of_decimal false s x) (Finite false m e) in
  let pick s := if s =? 10 ^ N.of_nat k then Some (10 ^ (N.of_nat k - 1), (n + 1)%Z)
                else Some (s, n) in
  match ok lo, ok hi with
  | true, true =>
      match (2 * num) ?= ((2 * lo + 1) * den) with
      | Lt => pick lo
      | Gt => pick hi
      | Eq => if N.even lo then pick lo else pick hi
      end
  | true, false => pick lo
  | false, true => pick hi
  | false, false => None
  end.

Fixpoint shortest_digits (fuel : nat) (m : N) (e : Z) (p q : N) (n : Z) (k : nat)
  : N * Z * nat :=
  match fuel with
  | O => (0, n, k)
  | S fuel' =>
      match digits_candidate m e p q n k with
      | Some (s, n') => (s, n', k)
      | None => shortest_digits fuel' m e p q n (S k)
      end
  end.

Definition zeros (k : nat) : JSString := repeat 48 k.

(** Steps 7 to 11 of Number::toString on the digits [ds] of [s]. *)
Definition format_decimal (ds : JSString) (k : nat) (n : Z) : JSString :=
  if ((Z.of_nat k <=? n) && (n <=? 21))%Z then
    ds ++ zeros (Z.to_nat n - k)
  else if ((0 <? n) && (n <=? 21))%Z then
    firstn (Z.to_nat n) ds ++ js "." ++ skipn (Z.to_nat n) ds
  else if ((-6 <? n) && (n <=? 0))%Z then
    js "0." ++ zeros (Z.to_nat (- n)) ++ ds
  else
    let x := (n - 1)%Z in
    let ex := js "e" ++ (if (x <? 0)%Z then js "-" else js "+") ++ decimal (Z.to_N (Z.abs x)) in
    match ds with
    | [d] => [d] ++ ex
    | d :: rest => [d] ++ js "." ++ rest ++ ex
    | [] => ex
    end.

Definition Number_toString (x : JSNumber) : JSString :=
  match x with
  | Infinite neg => (if neg then js "-" else []) ++ js "Infinity"
  | Finite neg m e =>
      if m =? 0 then js "0" else
      let p := if (0 <=? e)%Z then m * 2 ^ Z.to_N e else m in
      let q := if (0 <=? e)%Z then 1 else 2 ^ Z.to_N (- e) in
      let n := decimal_exponent p q in
      let '(s, n', k) := shortest_digits 17 m e p q n 1 in
      (if neg then js "-" else []) ++ format_decimal (decimal s) k n'
  end.

(** The Number of an integer (what [parseInt] returns for its digits). *)
Definition Number_of_Z (z : Z) : JSNumber :=
  float_of_ratio (z <? 0)%Z (Z.to_N (Z.abs z)) 1.

(** ** JSON values *)

Inductive JSValue : Type :=
| JNull
| JBool (b : bool)
| JNumber (n : JSNumber)
| JString (s : JSString)
| JArray (elems : list JSValue)
| JObject (props : list (JSString * JSValue)).

(** The own properties of an object, in the order [Object.keys] lists
    them: array indices in ascending order, then the other keys in the
    order of their creation. *)
Definition Props (V : Type) := list (JSString * V).

Fixpoint lookup {V} (k : JSString) (ps : Props V) : option V :=
  match ps with
  | [] => None
  | (k', v) :: ps' => if jseq k k' then Some v else lookup k ps'
  end.

Definition is_digit (c : N) : bool := (48 <=? c) && (c <=? 57).

Definition digits_value (ds : JSString) : N :=
  fold_left (fun acc c => acc * 10 + (c - 48)) ds 0.

(** An array index: the canonical decimal form of an integer below
    [2^32 - 1]. *)
Definition array_index (k : JSString) : option N :=
  match k with
  | [] => None
  | c :: rest =>
      if forallb is_digit k && (negb (c =? 48) || match rest with [] => true | _ => false end)
      then (if digits_value k <? 4294967295 then Some (digits_value k) else None)
      else None
  end.

Fixpoint replace_prop {V} (k : JSString) (v : V) (ps : Props V) : Props V :=
  match ps with
  | [] => []
  | (k', v') :: ps' => if jseq k k' then (k', v) :: ps' else (k', v') :: replace_prop k v ps'
  end.

Fixpoint insert_index {V} (i : N) (k : JSString) (v : V) (ps : Props V) : Props V :=
  match ps with
  | [] => [(k, v)]
  | (k', v') :: ps' =>
      match array_index k' with
      | Some j => if j <? i then (k', v') :: insert_index i k v ps'
                  else (k, v) :: ps
      | None => (k, v) :: ps
      end
  end.

(** [CreateDataProperty]: a present key keeps its place and takes the new
    value; a new key is placed where [Object.keys] will list it. *)
Definition define_prop {V} (k : JSString) (v : V) (ps : Props V) : Props V :=
  match lookup k ps with
  | Some _ => replace_prop k v ps
  | None =>
      match array_index k with
      | Some i => insert_index i k v ps
      | None => ps ++ [(k, v)]
      end
  end.

(** ** [JSON.parse] *)

Inductive Token : Type :=
| TLBrace | TRBrace | TLBrack | TRBrack | TColon | TComma
| TStr (s : JSString)
| TNum (n : JSNumber)
| TTrue | TFalse | TNull.

(** The lexer reads one code unit at a time. *)
Inductive LexMode : Type :=
| LIdle
| LWord (acc : JSString)
| LStr (acc : JSString)
| LEsc (acc : JSString)
| LHex (acc : JSString) (hs : list N).

Definition is_ws (c : N) : bool :=
  (c =? 32) || (c =? 9) || (c =? 10) || (c =? 13).

Definition is_lower (c : N) : bool := (97 <=? c) && (c <=? 122).

(** Code units of literals and numbers. *)
Definition is_word (c : N) : bool :=
  is_lower c || is_digit c || (c =? 45) || (c =? 43) || (c =? 46) || (c =? 69).

Definition punct (c : N) : option Token :=
  if c =? 123 then Some TLBrace else
  if c =? 125 then Some TRBrace else
  if c =? 91 then Some TLBrack else
  if c =? 93 then Some TRBrack else
  if c =? 58 then Some TColon else
  if c =? 44 then Some TComma else None.

Definition hex_value (c : N) : option N :=
  if is_digit c then Some (c - 48) else
  if (97 <=? c) && (c <=? 102) then Some (c - 87) else
  if (65 <=? c) && (c <=? 70) then Some (c - 55) else None.

Fixpoint span_digits (s : JSString) : JSString * JSString :=
  match s with
  | c :: s' => if is_digit c then let (ds, r) := span_digits s' in (c :: ds, r)
               else ([], s)
  | [] => ([], [])
  end.

(** The JSON number grammar: an optional minus; an integer part, which is
    0 or starts with a digit from 1 to 9; an optional fraction (a dot and
    one or more digits); an optional exponent (e or E, an optional sign,
    one or more digits). *)
Definition number_of_lexeme (s : JSString) : option JSNumber :=
  let (neg, s1) := match s with 45 :: r => (true, r) | _ => (false, s) end in
  let (int, s2) := span_digits s1 in
  let int_ok := match int with
                | [] => false
                | [_] => true
                | c :: _ => negb (c =? 48)
                end in
  let '(frac, frac_ok, s3) :=
    match s2 with
    | 46 :: r => let (f, r') := span_digits r in (f, nonempty f, r')
    | _ => ([], true, s2)
    end in
  let '(exp, exp_ok, s4) :=
    match s3 with
    | c :: r =>
        if (c =? 101) || (c =? 69) then
          let (eneg, r1) := match r with
                            | 45 :: r' => (true, r')
                            | 43 :: r' => (false, r')
                            | _ => (false, r)
                            end in
          let (ds, r2) := span_digits r1 in
          (if eneg then (- Z.of_N (digits_value ds))%Z else Z.of_N (digits_value ds),
           nonempty ds, r2)
        else (0%Z, true, s3)
    | [] => (0%Z, true, s3)
    end in
  if int_ok && frac_ok && exp_ok && negb (nonempty s4) then
    Some (float_of_decimal neg (digits_value (int ++ frac)) (exp - Z.of_nat (length frac)))
  else None.

Definition word_token (w : JSString) : option Token :=
  if jseq w (js "true") then Some TTrue else
  if jseq w (js "false") then Some TFalse else
  if jseq w (js "null") then Some TNull else
  option_map TNum (number_of_lexeme w).

Definition lex_idle (c : N) : option (LexMode * list Token) :=
  if is_ws c then Some (LIdle, []) else
  if c =? 34 then Some (LStr [], []) else
  match punct c with
  | Some t => Some (LIdle, [t])
  | None => if is_word c then Some (LWord [c], []) else None
  end.

Definition lex_escape (c : N) : option N :=
  if c =? 34 then Some 34 else
  if c =? 92 then Some 92 else
  if c =? 47 then Some 47 else
  if c =? 98 then Some 8 else
  if c =? 102 then Some 12 else
  if c =? 110 then Some 10 else
  if c =? 114 then Some 13 else
  if c =? 116 then Some 9 else None.

(** One step; the accumulators are kept reversed. *)
Definition lex_step (m : LexMode) (c : N) : option (LexMode * list Token) :=
  match m with
  | LIdle => lex_idle c
  | LWord acc =>
      if is_word c then Some (LWord (c :: acc), []) else
      match word_token (rev acc), lex_idle c with
      | Some t, Some (m', ts) => Some (m', t :: ts)
      | _, _ => None
      end
  | LStr acc =>
      if c =? 34 then Some (LIdle, [TStr (rev acc)]) else
      if c =? 92 then Some (LEsc acc, []) else
      if c <? 32 then None else Some (LStr (c :: acc), [])
  | LEsc acc =>
      if c =? 117 then Some (LHex acc [], []) else
      match lex_escape c with
      | Some d => Some (LStr (d :: acc), [])
      | None => None
      end
  | LHex acc hs =>
      match hex_value c with
      | Some h =>
          match hs with
          | [h1; h2; h3] => Some (LStr ((((h1 * 16 + h2) * 16 + h3) * 16 + h) :: acc), [])
          | _ => Some (LHex acc (hs ++ [h]), [])
          end
      | None => None
      end
  end.

Fixpoint lex (m : LexMode) (s : JSString) : option (list Token) :=
  match s with
  | [] =>
      match m with
      | LIdle => Some []
      | LWord acc => option_map (fun t => [t]) (word_token (rev acc))
      | _ => None
      end
  | c :: s' =>
      match lex_step m c with
      | Some (m', ts) => option_map (app ts) (lex m' s')
      | None => None
      end
  end.

(** The parser runs over the tokens with the stack of the arrays and
    objects that are still open. *)
Inductive Frame : Type :=
| FArr (done : list JSValue)
| FObj (props : Props JSValue) (key : JSString).

Inductive Phase : Type :=
| PValue
| PFirstElem
| PFirstKey
| PKey (props : Props JSValue)
| PColon (props : Props JSValue) (key : JSString)
| PDone (v : JSValue).

Definition scalar_token (t : Token) : option JSValue :=
  match t with
  | TStr s => Some (JString s)
  | TNum n => Some (JNumber n)
  | TTrue => Some (JBool true)
  | TFalse => Some (JBool false)
  | TNull => Some JNull
  | _ => None
  end.

Fixpoint parse_tokens (ph : Phase) (st : list Frame) (ts : list Token)
  : option JSValue :=
  match ts with
  | [] => match ph, st with PDone v, [] => Some v | _, _ => None end
  | t :: ts' =>
      match ph with
      | PValue =>
          match t with
          | TLBrack => parse_tokens PFirstElem (FArr [] :: st) ts'
          | TLBrace => parse_tokens PFirstKey st ts'
          | _ => match scalar_token t with
                 | Some v => parse_tokens (PDone v) st ts'
                 | None => None
                 end
          end
      | PFirstElem =>
          match t with
          | TLBrack => parse_tokens PFirstElem (FArr [] :: st) ts'
          | TLBrace => parse_tokens PFirstKey st ts'
          | TRBrack => match st with
                       | FArr [] :: st' => parse_tokens (PDone (JArray [])) st' ts'
                       | _ => None
                       end
          | _ => match scalar_token t with
                 | Some v => parse_tokens (PDone v) st ts'
                 | None => None
                 end
          end
      | PFirstKey =>
          match t with
          | TStr k => parse_tokens (PColon [] k) st ts'
          | TRBrace => parse_tokens (PDone (JObject [])) st ts'
          | _ => None
          end
      | PKey props =>
          match t with
          | TStr k => parse_tokens (PColon props k) st ts'
          | _ => None
          end
      | PColon props k =>
          match t with
          | TColon => parse_tokens PValue (FObj props k :: st) ts'
          | _ => None
          end
      | PDone v =>
          match t, st with
          | TComma, FArr done :: st' => parse_tokens PValue (FArr (v :: done) :: st') ts'
          | TRBrack, FArr done :: st' =>
              parse_tokens (PDone (JArray (rev (v :: done)))) st' ts'
          | TComma, FObj props k :: st' =>
              parse_tokens (PKey (define_prop k v props)) st' ts'
          | TRBrace, FObj props k :: st' =>
              parse_tokens (PDone (JObject (define_prop k v props))) st' ts'
          | _, _ => None
          end
      end
  end.

(** [JSON.parse(text)] without a reviver; [None] stands for the
    [SyntaxError] it throws. *)
Definition JSON_parse (text : JSString) : option JSValue :=
  match lex LIdle text with
  | Some ts => parse_tokens PValue [] ts
  | None => None
  end.

(** ** Buffers *)

Definition byte_of_N (n : N) : Byte.byte :=
  match Byte.of_N (n mod 256) with
  | Some b => b
  | None => Byte.x00
  end.

Definition is_high_surrogate (c : N) : bool := (55296 <=? c) && (c <=? 56319).
Definition is_low_surrogate (c : N) : bool := (56320 <=? c) && (c <=? 57343).

(** The code points of a string as Node encodes it: a surrogate pair is
    one code point, a lone surrogate is replaced by U+FFFD. *)
Fixpoint code_points (s : JSString) : list N :=
  match s with
  | [] => []
  | c :: s' =>
      if is_high_surrogate c then
        match s' with
        | d :: s'' =>
            if is_low_surrogate d
            then (65536 + (c - 55296) * 1024 + (d - 56320)) :: code_points s''
            else 65533 :: code_points s'
        | [] => [65533]
        end
      else if is_low_surrogate c then 65533 :: code_points s'
      else c :: code_points s'
  end.

Definition utf8_of_code_point (cp : N) : list Byte.byte :=
  if cp <? 128 then [byte_of_N cp]
  else if cp <? 2048 then
    [byte_of_N (192 + cp / 64); byte_of_N (128 + cp mod 64)]
  else if cp <? 65536 then
    [byte_of_N (224 + cp / 4096); byte_of_N (128 + (cp / 64) mod 64);
     byte_of_N (128 + cp mod 64)]
  else
    [byte_of_N (240 + cp / 262144); byte_of_N (128 + (cp / 4096) mod 64);
     byte_of_N (128 + (cp / 64) mod 64); byte_of_N (128 + cp mod 64)].

Definition utf8_encode (s : JSString) : list Byte.byte :=
  flat_map utf8_of_code_point (code_points s).

(** [Buffer.byteLength(s, 'utf8')]. *)
Definition Buffer_byteLength (s : JSString) : N := N.of_nat (length (utf8_encode s)).

(** Node's base64 alphabet: the standard one and the URL-safe one. *)
Definition unbase64 (c : N) : option N :=
  if (65 <=? c) && (c <=? 90) then Some (c - 65) else
  if (97 <=? c) && (c <=? 122) then Some (c - 71) else
  if (48 <=? c) && (c <=? 57) then Some (c + 4) else
  if (c =? 43) || (c =? 45) then Some 62 else
  if (c =? 47) || (c =? 95) then Some 63 else None.

(** The 6-bit values Node's decoder reads: each code unit is narrowed to
    8 bits, a unit outside the alphabet is skipped, and the first [=]
    ends the input. *)
Fixpoint sextets (s : JSString) : list N :=
  match s with
  | [] => []
  | c :: s' =>
      match unbase64 (c mod 256) with
      | Some v => v :: sextets s'
      | None => if c mod 256 =? 61 then [] else sextets s'
      end
  end.

Fixpoint bytes_of_sextets (l : list N) : list Byte.byte :=
  match l with
  | a :: b :: c :: d :: l' =>
      byte_of_N (a * 4 + b / 16) :: byte_of_N ((b mod 16) * 16 + c / 4)
        :: byte_of_N ((c mod 4) * 64 + d) :: bytes_of_sextets l'
  | [a; b; c] => [byte_of_N (a * 4 + b / 16); byte_of_N ((b mod 16) * 16 + c / 4)]
  | [a; b] => [byte_of_N (a * 4 + b / 16)]
  | _ => []
  end.

(** [Buffer.from(s, 'base64')] on a string: it never throws. *)
Definition base64_decode (s : JSString) : list Byte.byte :=
  bytes_of_sextets (sextets s).

(** The base64 text of RFC 4648 for a sequence of bytes. *)
Definition base64_char (v : N) : N :=
  if v <? 26 then 65 + v
  else if v <? 52 then 71 + v
  else if v <? 62 then v - 4
  else if v =? 62 then 43 else 47.

Fixpoint base64_encode (bs : list Byte.byte) : JSString :=
  match bs with
  | x :: y :: z :: rest =>
      let x := Byte.to_N x in
      let y := Byte.to_N y in
      let z := Byte.to_N z in
      base64_char (x / 4) :: base64_char ((x mod 4) * 16 + y / 16)
        :: base64_char ((y mod 16) * 4 + z / 64) :: base64_char (z mod 64)
        :: base64_encode rest
  | [x; y] =>
      let x := Byte.to_N x in
      let y := Byte.to_N y in
      [base64_char (x / 4); base64_char ((x mod 4) * 16 + y / 16);
       base64_char ((y mod 16) * 4); 61]
  | [x] =>
      let x := Byte.to_N x in
      [base64_char (x / 4); base64_char ((x mod 4) * 16); 61; 61]
  | [] => []
  end.

(** ** Errors, results, effects *)

(** Exceptions thrown by the engine rather than by this repository. *)
Inductive EngineError : Type :=
| JSONSyntaxError (text : JSString)
| NullToObject
| ReadOfNull (prop : JSString)
| NotPrimitive
| BufferArgument (v : JSValue).

(** One constructor for each [throw] of the source, and [Client] for what
    the SQS client rejects with. *)
Inductive Error : Type :=
| Engine (e : EngineError)
| TooManyAttributes (n : nat)
| MissingDataType (key : JSString)
| InvalidDataType (dt key : JSString)
| MissingStringValue (key dt : JSString)
| MissingBinaryValue (key : JSString)
| ParseFailed (cause : Error)
| GroupIdRequired
| InvalidQueueUrl (url : JSString)
| BodyTooLarge (size : N)
| DelayOutOfRange (delay : Z)
| InvalidDelay (text : JSString)
| InputRequired (name : JSString)
| SendFailed (msg : JSString)
| Client (msg : JSString).

(** The source throws plain [Error] objects; the kinds of the
    specification's taxonomy are read off the throw site.  Everything
    [parseMessageAttributes] throws leaves it as the one error
    "Failed to parse message attributes", the schema error; no throw site
    stands for a decode error. *)
Inductive ErrorKind : Type :=
| FormatError | SizeLimitError | RangeError | MissingRequiredFieldError
| SchemaError | DecodeError | TransportError.

Definition kind (e : Error) : option ErrorKind :=
  match e with
  | InvalidQueueUrl _ | InvalidDelay _ => Some FormatError
  | BodyTooLarge _ => Some SizeLimitError
  | DelayOutOfRange _ => Some RangeError
  | GroupIdRequired => Some MissingRequiredFieldError
  | ParseFailed _ | TooManyAttributes _ | MissingDataType _ | InvalidDataType _ _
  | MissingStringValue _ _ | MissingBinaryValue _ => Some SchemaError
  | Client _ => Some TransportError
  | Engine _ | InputRequired _ | SendFailed _ => None
  end.

Inductive Result (A : Type) : Type :=
| Return (a : A)
| Throw (e : Error).
Arguments Return {A} a.
Arguments Throw {A} e.

Definition bind {A B} (m : Result A) (f : A -> Result B) : Result B :=
  match m with
  | Return a => f a
  | Throw e => Throw e
  end.

(** [try { m } catch (e) { h e }]. *)
Definition try_catch {A} (m : Result A) (h : Error -> Result A) : Result A :=
  match m with
  | Return a => Return a
  | Throw e => h e
  end.

Declare Scope result_scope.
Delimit Scope result_scope with result.
Notation "x <- m ;; k" := (bind m (fun x => k))
  (at level 61, m at next level, right associativity) : result_scope.
Notation "m ;; k" := (bind m (fun _ => k))
  (at level 61, right associativity) : result_scope.

(** ** The data of [sqs.ts] *)

(** [MessageAttributeValue] of the SDK, with the three fields the source
    fills. *)
Record MessageAttributeValue : Type := {
  DataType : JSString;
  StringValue : option JSString;
  BinaryValue : option (list Byte.byte)
}.

(** [delaySeconds] is typed [number] in the source; the model keeps the
    integers, which is what [run] passes after [parseInt]. *)
Record MessageConfig : Type := {
  queueUrl : JSString;
  messageBody : JSString;
  messageAttributes : option JSString;
  delaySeconds : option Z;
  messageGroupId : option JSString;
  messageDeduplicationId : option JSString;
  systemAttributes : option JSString
}.

Record SendMessageCommandInput : Type := {
  QueueUrl : JSString;
  MessageBody : JSString;
  DelaySeconds : option Z;
  MessageAttributes : option (Props MessageAttributeValue);
  MessageSystemAttributes : option (Props MessageAttributeValue);
  MessageGroupId : option JSString;
  MessageDeduplicationId : option JSString
}.

(** The fields of the client's response that the source reads. *)
Record SendMessageCommandOutput : Type := {
  MessageId : option JSString;
  SequenceNumber : option JSString;
  MD5OfMessageBody : option JSString;
  MD5OfMessageAttributes : option JSString
}.

Record MessageResult : Type := {
  success : bool;
  messageId : option JSString;
  sequenceNumber : option JSString;
  md5OfBody : option JSString;
  md5OfAttributes : option JSString;
  error : option JSString
}.

(** What a run does to the outside: the calls into [@actions/core] and
    the submission to the client. *)
Inductive Event : Type :=
| LogInfo (msg : JSString)
| LogWarning (msg : JSString)
| LogError (msg : JSString)
| SetOutput (name value : JSString)
| SetFailed (msg : JSString)
| Submit (input : SendMessageCommandInput).

(** A computation with effects: the events it emitted, then how it ended. *)
Definition Action (A : Type) : Type := list Event * Result A.

Definition ret {A} (a : A) : Action A := ([], Return a).
Definition raise {A} (e : Error) : Action A := ([], Throw e).
Definition lift {A} (r : Result A) : Action A := ([], r).
Definition emit (ev : Event) : Action unit := ([ev], Return tt).

Definition abind {A B} (m : Action A) (f : A -> Action B) : Action B :=
  match m with
  | (l1, Return a) => let (l2, r) := f a in (l1 ++ l2, r)
  | (l1, Throw e) => (l1, Throw e)
  end.

Definition acatch {A} (m : Action A) (h : Error -> Action A) : Action A :=
  match m with
  | (l1, Return a) => (l1, Return a)
  | (l1, Throw e) => let (l2, r) := h e in (l1 ++ l2, r)
  end.

Declare Scope action_scope.
Delimit Scope action_scope with action.
Notation "x <- m ;; k" := (abind m (fun x => k))
  (at level 61, m at next level, right associativity) : action_scope.
Notation "m ;; k" := (abind m (fun _ => k))
  (at level 61, right associativity) : action_scope.

Definition when (b : bool) (m : Action unit) : Action unit :=
  if b then m else ret tt.

Definition events {A} (m : Action A) : list Event := fst m.
Definition outcome {A} (m : Action A) : Result A := snd m.

Definition is_submit (ev : Event) : bool :=
  match ev with Submit _ => true | _ => false end.

(** ** [sqs.ts] *)

Definition validDataTypes : list JSString := [js "String"; js "Number"; js "Binary"].

(** [xs.join(sep)] on strings. *)
Fixpoint join (sep : JSString) (xs : list JSString) : JSString :=
  match xs with
  | [] => []
  | [x] => x
  | x :: xs' => x ++ sep ++ join sep xs'
  end.

(** [String(v)] and [`${v}`] on a parsed value.  An object with an own
    [toString] property (never callable in parsed JSON) has no primitive
    value; an array is joined with commas, [null] elements printing as
    nothing. *)
Fixpoint ToString (v : JSValue) : Result JSString :=
  match v with
  | JNull => Return (js "null")
  | JBool true => Return (js "true")
  | JBool false => Return (js "false")
  | JNumber n => Return (Number_toString n)
  | JString s => Return s
  | JArray elems =>
      (fix elements (l : list JSValue) : Result JSString :=
         match l with
         | [] => Return []
         | x :: l' =>
             (s <- match x with JNull => Return [] | _ => ToString x end ;;
              match l' with
              | [] => Return s
              | _ => r <- elements l' ;; Return (s ++ js "," ++ r)
              end)%result
         end) elems
  | JObject props =>
      match lookup (js "toString") props with
      | Some _ => Throw (Engine NotPrimitive)
      | None => Return (js "[object Object]")
      end
  end.

(** [v.p] for one of the names [DataType], [StringValue], [BinaryValue]:
    [None] is [undefined]. *)
Definition member (v : JSValue) (p : JSString) : Result (option JSValue) :=
  match v with
  | JNull => Throw (Engine (ReadOfNull p))
  | JObject props => Return (lookup p props)
  | _ => Return None
  end.

Definition ToBoolean (o : option JSValue) : bool :=
  match o with
  | None | Some JNull => false
  | Some (JBool b) => b
  | Some (JNumber n) => Number_truthy n
  | Some (JString s) => nonempty s
  | Some (JArray _) | Some (JObject _) => true
  end.

(** [xs.includes(v)] on an array of strings. *)
Definition includes (xs : list JSString) (o : option JSValue) : bool :=
  match o with
  | Some (JString s) => existsb (jseq s) xs
  | _ => false
  end.

Definition index_keys (n : nat) : list JSString :=
  map (fun i => decimal (N.of_nat i)) (seq 0 n).

(** [Object.entries(v)]; [Object.keys(v)] is its first components. *)
Definition Object_entries (v : JSValue) : Result (Props JSValue) :=
  match v with
  | JNull => Throw (Engine NullToObject)
  | JBool _ | JNumber _ => Return []
  | JString s => Return (combine (index_keys (length s)) (map (fun c => JString [c]) s))
  | JArray elems => Return (combine (index_keys (length elems)) elems)
  | JObject props => Return props
  end.

Definition Object_keys (v : JSValue) : Result (list JSString) :=
  (es <- Object_entries v ;; Return (map fst es))%result.

(** [o[key] = v] on an object created by [{}]: the key [__proto__] is
    taken by the setter of [Object.prototype] and adds no own property. *)
Definition assign {V} (key : JSString) (v : V) (o : Props V) : Props V :=
  if jseq key (js "__proto__") then o else define_prop key v o.

(** The class [[a-z0-9-]]. *)
Definition region_char (c : N) : bool := is_lower c || is_digit c || (c =? 45).

(** [.] without the [s] flag: any code unit but the line terminators. *)
Definition dot (c : N) : bool :=
  negb ((c =? 10) || (c =? 13) || (c =? 8232) || (c =? 8233)).

(** [urlPattern] of [validateQueueUrl],
    [/^https:\/\/sqs\.[a-z0-9-]+\.amazonaws\.com(\.cn)?\/\d+\/.+$/];
    [\d] is the class of the ten ASCII digits. *)
Definition urlPattern : regex :=
  Seq (Lit (js "https://sqs."))
 (Seq (Plus (Chr region_char))
 (Seq (Lit (js ".amazonaws.com"))
 (Seq (Opt (Lit (js ".cn")))
 (Seq (Lit (js "/"))
 (Seq (Plus (Chr is_digit))
 (Seq (Lit (js "/"))
      (Plus (Chr dot)))))))).

Definition validateQueueUrl (queueUrl : JSString) : Result unit :=
  if negb (regex_test urlPattern queueUrl) then Throw (InvalidQueueUrl queueUrl)
  else Return tt.

Definition maxSizeBytes : N := 256 * 1024.

Definition validateMessageBody (messageBody : JSString) : Result unit :=
  let sizeInBytes := Buffer_byteLength messageBody in
  if maxSizeBytes <? sizeInBytes then Throw (BodyTooLarge sizeInBytes)
  else Return tt.

Definition validateDelaySeconds (delaySeconds : option Z) : Result unit :=
  match delaySeconds with
  | Some d => if ((d <? 0) || (900 <? d))%Z then Throw (DelayOutOfRange d) else Return tt
  | None => Return tt
  end.

Definition fifo_warning : JSString :=
  js "message-group-id is provided but queue URL does not end with .fifo. "
  ++ js "This parameter will be ignored for standard queues.".

Definition validateFifoQueue (queueUrl : JSString) (messageGroupId : option JSString)
  : Action unit :=
  let isFifo := endsWith queueUrl (js ".fifo") in
  if isFifo && negb (truthy messageGroupId) then raise GroupIdRequired
  else when (negb isFifo && truthy messageGroupId) (emit (LogWarning fifo_warning)).

Section Engine.

(** The text of the engine's own exceptions, and what Node's
    [Buffer.from] makes of an array or an object ([None]: it throws):
    both belong to the runtime and are left open. *)
Variable engine_message : EngineError -> JSString.
Variable Buffer_from_object : JSValue -> option (list Byte.byte).

(** [error.message]. *)
Fixpoint message (e : Error) : JSString :=
  match e with
  | Engine x => engine_message x
  | TooManyAttributes n =>
      js "Too many message attributes: " ++ decimal (N.of_nat n)
      ++ js ". Maximum allowed is 10."
  | MissingDataType key =>
      js "Missing DataType for attribute " ++ dquote ++ key ++ dquote
      ++ js ". Must be one of: " ++ join (js ", ") validDataTypes
  | InvalidDataType dt key =>
      js "Invalid DataType " ++ dquote ++ dt ++ dquote ++ js " for attribute "
      ++ dquote ++ key ++ dquote ++ js ". Must be one of: "
      ++ join (js ", ") validDataTypes
  | MissingStringValue key dt =>
      js "Missing StringValue for attribute " ++ dquote ++ key ++ dquote
      ++ js " with DataType " ++ dquote ++ dt ++ dquote
  | MissingBinaryValue key =>
      js "Missing BinaryValue for attribute " ++ dquote ++ key ++ dquote
      ++ js " with DataType " ++ dquote ++ js "Binary" ++ dquote
  | ParseFailed cause => js "Failed to parse message attributes: " ++ message cause
  | GroupIdRequired =>
      js "message-group-id is required for FIFO queues (queue URL ends with .fifo)"
  | InvalidQueueUrl url =>
      js "Invalid queue URL format: " ++ dquote ++ url ++ dquote ++ js ". "
      ++ js "Expected format: https://sqs.{region}.amazonaws.com/{account-id}/{queue-name}"
  | BodyTooLarge size =>
      js "Message body size (" ++ decimal size
      ++ js " bytes) exceeds maximum allowed size ("
      ++ decimal maxSizeBytes ++ js " bytes / 256 KB)"
  | DelayOutOfRange d =>
      js "delay-seconds must be between 0 and 900 (got "
      ++ Number_toString (Number_of_Z d) ++ js ")"
  | InvalidDelay text =>
      js "Invalid delay-seconds value: " ++ dquote ++ text ++ dquote
      ++ js ". Must be a number."
  | InputRequired name => js "Input required and not supplied: " ++ name
  | SendFailed msg => msg
  | Client msg => msg
  end.

(** [new Uint8Array(Buffer.from(v, 'base64'))]. *)
Definition Buffer_from_base64 (v : JSValue) : Result (list Byte.byte) :=
  match v with
  | JString s => Return (base64_decode s)
  | JArray _ | JObject _ =>
      match Buffer_from_object v with
      | Some bytes => Return bytes
      | None => Throw (Engine (BufferArgument v))
      end
  | JNull | JBool _ | JNumber _ => Throw (Engine (BufferArgument v))
  end.

(** The body of the loop of [parseMessageAttributes], for one entry. *)
Definition parseAttribute (key : JSString) (value : JSValue)
  : Result MessageAttributeValue :=
  (dt <- member value (js "DataType") ;;
   if negb (ToBoolean dt) then Throw (MissingDataType key)
   else if negb (includes validDataTypes dt) then
     (shown <- match dt with Some v => ToString v | None => Return (js "undefined") end ;;
      Throw (InvalidDataType shown key))
   else
     let ty := match dt with Some (JString s) => s | _ => [] end in
     sv <- member value (js "StringValue") ;;
     bv <- member value (js "BinaryValue") ;;
     (if jseq ty (js "String") || jseq ty (js "Number") then
        match sv with
        | None => Throw (MissingStringValue key ty)
        | Some _ => Return tt
        end
      else if jseq ty (js "Binary") then
        match bv with
        | None => Throw (MissingBinaryValue key)
        | Some _ => Return tt
        end
      else Return tt) ;;
     text <- match sv with
             | Some v => (s <- ToString v ;; Return (Some s))
             | None => Return None
             end ;;
     bytes <- match bv with
              | Some v => (b <- Buffer_from_base64 v ;; Return (Some b))
              | None => Return None
              end ;;
     Return {| DataType := ty; StringValue := text; BinaryValue := bytes |})%result.

(** The loop over [Object.entries(parsed)], filling [attributes]. *)
Fixpoint parseEntries (entries : Props JSValue) (attributes : Props MessageAttributeValue)
  : Result (Props MessageAttributeValue) :=
  match entries with
  | [] => Return attributes
  | (key, value) :: rest =>
      (messageAttr <- parseAttribute key value ;;
       parseEntries rest (assign key messageAttr attributes))%result
  end.

Definition parseMessageAttributes (attributesJson : JSString)
  : Result (Props MessageAttributeValue) :=
  try_catch
    (parsed <- match JSON_parse attributesJson with
               | Some v => Return v
               | None => Throw (Engine (JSONSyntaxError attributesJson))
               end ;;
     attributeKeys <- Object_keys parsed ;;
     if (10 <? length attributeKeys)%nat
     then Throw (TooManyAttributes (length attributeKeys))
     else
       entries <- Object_entries parsed ;;
       parseEntries entries [])%result
    (fun e => Throw (ParseFailed e)).

Definition parseSystemAttributes (attributesJson : JSString)
  : Result (Props MessageAttributeValue) :=
  parseMessageAttributes attributesJson.

(** *** [sendMessage] *)

(** The [try] block of [sendMessage] up to the submission: the four
    validators, then the command input with its optional fields. *)
Definition buildRequest (config : MessageConfig) : Action SendMessageCommandInput :=
  (lift (validateQueueUrl (queueUrl config)) ;;
   lift (validateMessageBody (messageBody config)) ;;
   lift (validateDelaySeconds (delaySeconds config)) ;;
   validateFifoQueue (queueUrl config) (messageGroupId config) ;;
   emit (LogInfo (js "Sending message to queue: " ++ queueUrl config)) ;;
   emit (LogInfo (js "Message body size: "
                  ++ decimal (Buffer_byteLength (messageBody config))
                  ++ js " bytes")) ;;
   delay <- match delaySeconds config with
            | Some d =>
                if (0 <? d)%Z then
                  emit (LogInfo (js "Delay: " ++ Number_toString (Number_of_Z d)
                                 ++ js " seconds")) ;;
                  ret (Some d)
                else ret None
            | None => ret None
            end ;;
   attrs <- match messageAttributes config with
            | Some text =>
                if nonempty text then
                  a <- lift (parseMessageAttributes text) ;;
                  emit (LogInfo (js "Message attributes: "
                                 ++ decimal (N.of_nat (length a))
                                 ++ js " attribute(s)")) ;;
                  ret (Some a)
                else ret None
            | None => ret None
            end ;;
   sys <- match systemAttributes config with
          | Some text =>
              if nonempty text then
                a <- lift (parseSystemAttributes text) ;;
                emit (LogInfo (js "System attributes: "
                               ++ decimal (N.of_nat (length a))
                               ++ js " attribute(s)")) ;;
                ret (Some a)
              else ret None
          | None => ret None
          end ;;
   group <- match messageGroupId config with
            | Some g =>
                if nonempty g then
                  emit (LogInfo (js "Message group ID: " ++ g)) ;; ret (Some g)
                else ret None
            | None => ret None
            end ;;
   dedup <- match messageDeduplicationId config with
            | Some d =>
                if nonempty d then
                  emit (LogInfo (js "Message deduplication ID: " ++ d)) ;; ret (Some d)
                else ret None
            | None => ret None
            end ;;
   ret {| QueueUrl := queueUrl config;
          MessageBody := messageBody config;
          DelaySeconds := delay;
          MessageAttributes := attrs;
          MessageSystemAttributes := sys;
          MessageGroupId := group;
          MessageDeduplicationId := dedup |})%action.

(** The submission client: what [client.send(command)] resolves to, or
    rejects with, for a command input. *)
Definition SQSClient : Type := SendMessageCommandInput -> Result SendMessageCommandOutput.

Definition send (client : SQSClient) (input : SendMessageCommandInput)
  : Action SendMessageCommandOutput :=
  ([Submit input], client input).

(** The line logged after the submission starts with the three
    characters the source holds there, U+00E2 U+0153 U+201C. *)
Definition sendMessage (client : SQSClient) (config : MessageConfig)
  : Action MessageResult :=
  acatch
    (input <- buildRequest config ;;
     response <- send client input ;;
     emit (LogInfo (226 :: 339 :: 8220 :: js " Message sent successfully")) ;;
     match MessageId response with
     | Some id => when (nonempty id) (emit (LogInfo (js "Message ID: " ++ id)))
     | None => ret tt
     end ;;
     match SequenceNumber response with
     | Some n => when (nonempty n) (emit (LogInfo (js "Sequence number: " ++ n)))
     | None => ret tt
     end ;;
     ret {| success := true;
            messageId := MessageId response;
            sequenceNumber := SequenceNumber response;
            md5OfBody := MD5OfMessageBody response;
            md5OfAttributes := MD5OfMessageAttributes response;
            error := None |})%action
    (fun e =>
       let errorMessage := message e in
       (emit (LogError (js "Failed to send message: " ++ errorMessage)) ;;
        ret {| success := false;
               messageId := None;
               sequenceNumber := None;
               md5OfBody := None;
               md5OfAttributes := None;
               error := Some errorMessage |})%action).

(** ** [index.ts] *)

(** The raw values of the action's inputs (the environment variables
    [INPUT_...]; an input that is not set is the empty string). *)
Record ActionInputs : Type := {
  in_queue_url : JSString;
  in_message_body : JSString;
  in_message_attributes : JSString;
  in_delay_seconds : JSString;
  in_message_group_id : JSString;
  in_message_deduplication_id : JSString;
  in_system_attributes : JSString
}.

(** White space and line terminators, as [trim] and [parseInt] skip
    them. *)
Definition is_space (c : N) : bool :=
  (c =? 9) || (c =? 10) || (c =? 11) || (c =? 12) || (c =? 13) || (c =? 32)
  || (c =? 160) || (c =? 5760) || ((8192 <=? c) && (c <=? 8202))
  || (c =? 8232) || (c =? 8233) || (c =? 8239) || (c =? 8287)
  || (c =? 12288) || (c =? 65279).

Fixpoint trimStart (s : JSString) : JSString :=
  match s with
  | c :: s' => if is_space c then trimStart s' else s
  | [] => []
  end.

Definition trim (s : JSString) : JSString :=
  rev (trimStart (rev (trimStart s))).

(** [core.getInput(name, { required })]: the requirement is tested on
    the raw value, the value returned is trimmed. *)
Definition getInput (name raw : JSString) (required : bool) : Result JSString :=
  if required && negb (nonempty raw) then Throw (InputRequired name)
  else Return (trim raw).

(** [parseInt(s, 10)]: leading white space, a sign, then the longest
    run of digits; [None] is [NaN] (no digit there).  The value is the
    integer the digits denote.  [parseInt] returns the Number nearest to
    it, [Number_of_Z] of it, which is that integer up to 2^53; what
    follows compares the value with 0 and 900 and prints it through
    [Number_of_Z] only. *)
Definition parseInt (s : JSString) : option Z :=
  let s1 := trimStart s in
  let (neg, s2) := match s1 with
                   | 45 :: r => (true, r)
                   | 43 :: r => (false, r)
                   | _ => (false, s1)
                   end in
  let (ds, _) := span_digits s2 in
  match ds with
  | [] => None
  | _ => Some (if neg then - Z.of_N (digits_value ds) else Z.of_N (digits_value ds))%Z
  end.

(** [x || d] on strings. *)
Definition orElse (s d : JSString) : JSString := if nonempty s then s else d.

Definition output (name : JSString) (value : option JSString) : Action unit :=
  match value with
  | Some v => when (nonempty v) (emit (SetOutput name v))
  | None => ret tt
  end.

Definition rule : JSString := repeat 61 50.

(** The [try] block of [run]. *)
Definition run_body (inputs : ActionInputs) (client : SQSClient) : Action unit :=
  (queueUrl <- lift (getInput (js "queue-url") (in_queue_url inputs) true) ;;
   messageBody <- lift (getInput (js "message-body") (in_message_body inputs) true) ;;
   messageAttributes <- lift (getInput (js "message-attributes")
                                (in_message_attributes inputs) false) ;;
   delaySecondsStr <- lift (getInput (js "delay-seconds") (in_delay_seconds inputs) false) ;;
   messageGroupId <- lift (getInput (js "message-group-id")
                             (in_message_group_id inputs) false) ;;
   messageDeduplicationId <- lift (getInput (js "message-deduplication-id")
                                     (in_message_deduplication_id inputs) false) ;;
   systemAttributes <- lift (getInput (js "system-attributes")
                               (in_system_attributes inputs) false) ;;
   let delaySecondsStr := orElse delaySecondsStr (js "0") in
   emit (LogInfo (js "AWS SQS Send Message")) ;;
   emit (LogInfo (js "Queue URL: " ++ queueUrl)) ;;
   match parseInt delaySecondsStr with
   | None => raise (InvalidDelay delaySecondsStr)
   | Some delaySeconds =>
       let config := {| queueUrl := queueUrl;
                        messageBody := messageBody;
                        messageAttributes := orUndefined messageAttributes;
                        delaySeconds := Some delaySeconds;
                        messageGroupId := orUndefined messageGroupId;
                        messageDeduplicationId := orUndefined messageDeduplicationId;
                        systemAttributes := orUndefined systemAttributes |} in
       result <- sendMessage client config ;;
       if negb (success result) then
         raise (SendFailed (match error result with
                            | Some msg => orElse msg (js "Failed to send message")
                            | None => js "Failed to send message"
                            end))
       else
         output (js "message-id") (messageId result) ;;
         output (js "sequence-number") (sequenceNumber result) ;;
         output (js "md5-of-body") (md5OfBody result) ;;
         output (js "md5-of-attributes") (md5OfAttributes result) ;;
         emit (LogInfo []) ;;
         emit (LogInfo rule) ;;
         emit (LogInfo (js "Message sent successfully")) ;;
         match messageId result with
         | Some id => when (nonempty id) (emit (LogInfo (js "Message ID: " ++ id)))
         | None => ret tt
         end ;;
         match sequenceNumber result with
         | Some n => when (nonempty n) (emit (LogInfo (js "Sequence Number: " ++ n)))
         | None => ret tt
         end ;;
         emit (LogInfo rule)
   end)%action.

Definition run (inputs : ActionInputs) (client : SQSClient) : Action unit :=
  acatch (run_body inputs client) (fun e => emit (SetFailed (message e))).

End Engine.

(** * Properties *)

(** ** Strings *)

Lemma jseq_spec a b : jseq a b = true <-> a = b.
Proof.
  revert b; induction a as [|x a IH]; intros [|y b]; simpl; split;
    try congruence; try reflexivity.
  - intros H. apply andb_true_iff in H as [H1 H2].
    apply N.eqb_eq in H1. apply IH in H2. congruence.
  - intros H. injection H as -> ->. rewrite N.eqb_refl. simpl. now apply IH.
Qed.

(** ** Regular expressions *)

(** *** The matcher decides membership *)

Lemma nullable_spec r : nullable r = true <-> Matches r [].
Proof.
  induction r; simpl.
  - split; [discriminate | intros H; inversion H].
  - split; [constructor | reflexivity].
  - split; [discriminate | intros H; inversion H].
  - rewrite andb_true_iff, IHr1, IHr2. split.
    + intros [H1 H2]. change (@nil N) with (@nil N ++ []). now constructor.
    + intros H. inversion H as [| |? ? s1 s2 H1 H2| | | |]; subst.
      destruct s1; [|discriminate]. destruct s2; [|discriminate]. now split.
  - rewrite orb_true_iff, IHr1, IHr2. split.
    + intros [H|H]; [now apply MAltL | now apply MAltR].
    + intros H. inversion H; subst; tauto.
  - split; [constructor | reflexivity].
Qed.

Lemma Matches_Seq r1 r2 s :
  Matches (Seq r1 r2) s <-> exists s1 s2, s = s1 ++ s2 /\ Matches r1 s1 /\ Matches r2 s2.
Proof.
  split.
  - intros H. inversion H; subst. eauto.
  - intros (s1 & s2 & -> & H1 & H2). now constructor.
Qed.

Lemma Matches_star_cons r c s :
  Matches (Star r) (c :: s) ->
  exists s1 s2, s = s1 ++ s2 /\ Matches r (c :: s1) /\ Matches (Star r) s2.
Proof.
  intros H. remember (Star r) as r0 eqn:Er. remember (c :: s) as w eqn:Ew.
  induction H; try discriminate.
  injection Er as ->.
  destruct s1 as [|d s1]; simpl in Ew.
  - now apply IHMatches2.
  - injection Ew as -> <-. now exists s1, s2.
Qed.

Lemma deriv_spec r : forall c s, Matches (deriv c r) s <-> Matches r (c :: s).
Proof.
  induction r; intros c s; simpl.
  - split; intros H; inversion H.
  - split; intros H; inversion H.
  - destruct (p c) eqn:Ep; split; intros H; inversion H; subst.
    + now constructor.
    + constructor.
    + congruence.
  - destruct (nullable r1) eqn:En.
    + split; intros H.
      * inversion H as [| | |? ? ? H1|? ? ? H1| |]; subst.
        -- inversion H1; subst.
           change (c :: s1 ++ s2) with ((c :: s1) ++ s2).
           constructor; [now apply IHr1 | assumption].
        -- change (c :: s) with ([] ++ c :: s).
           constructor; [now apply nullable_spec | now apply IHr2].
      * apply Matches_Seq in H as (s1 & s2 & E & H1 & H2).
        destruct s1 as [|d s1]; simpl in E.
        -- subst s2. apply MAltR. now apply IHr2.
        -- injection E as -> ->. apply MAltL. constructor; [now apply IHr1 | assumption].
    + split; intros H.
      * inversion H; subst.
        change (c :: s1 ++ s2) with ((c :: s1) ++ s2).
        constructor; [now apply IHr1 | assumption].
      * apply Matches_Seq in H as (s1 & s2 & E & H1 & H2).
        destruct s1 as [|d s1]; simpl in E.
        -- apply nullable_spec in H1. congruence.
        -- injection E as -> ->. constructor; [now apply IHr1 | assumption].
  - split; intros H; inversion H; subst;
      solve [apply MAltL; now apply IHr1 | apply MAltR; now apply IHr2].
  - split; intros H.
    + inversion H; subst.
      change (c :: s1 ++ s2) with ((c :: s1) ++ s2).
      constructor; [now apply IHr | assumption].
    + apply Matches_star_cons in H as (s1 & s2 & -> & H1 & H2).
      constructor; [now apply IHr | assumption].
Qed.

Lemma regex_test_spec s : forall r, regex_test r s = true <-> Matches r s.
Proof.
  induction s as [|c s IH]; intros r; simpl.
  - apply nullable_spec.
  - rewrite IH. apply deriv_spec.
Qed.

(** Inversion of the shapes the URL pattern is made of. *)

Lemma Matches_Lit l s : Matches (Lit l) s <-> s = l.
Proof.
  revert s; induction l as [|c l IH]; intros s; simpl; split; intros H.
  - now inversion H.
  - subst. constructor.
  - inversion H as [| |? ? s1 s2 H1 H2| | | |]; subst.
    inversion H1 as [|? ? Hc| | | | |]; subst.
    apply N.eqb_eq in Hc. apply IH in H2. now subst.
  - subst. change (c :: l) with ([c] ++ l).
    constructor; [constructor; apply N.eqb_refl | now apply IH].
Qed.

Lemma Matches_Star_class p s :
  Matches (Star (Chr p)) s <-> Forall (fun c => p c = true) s.
Proof.
  split.
  - intros H. remember (Star (Chr p)) as r eqn:Er.
    induction H; try discriminate; [constructor|].
    injection Er as ->. inversion H; subst. simpl. constructor; auto.
  - induction 1 as [|c s Hc _ IH]; [constructor|].
    change (c :: s) with ([c] ++ s). constructor; [now constructor | assumption].
Qed.

Lemma Matches_Plus_class p s :
  Matches (Plus (Chr p)) s <-> s <> [] /\ Forall (fun c => p c = true) s.
Proof.
  unfold Plus. split.
  - intros H. inversion H as [| |? ? s1 s2 H1 H2| | | |]; subst.
    inversion H1; subst. apply Matches_Star_class in H2. simpl.
    split; [discriminate | constructor; auto].
  - intros [Hne H]. destruct s as [|c s]; [congruence|].
    inversion H; subst. change (c :: s) with ([c] ++ s).
    constructor; [now constructor | now apply Matches_Star_class].
Qed.

Lemma Matches_Opt_Lit l s : Matches (Opt (Lit l)) s <-> s = l \/ s = [].
Proof.
  unfold Opt. split.
  - intros H. inversion H; subst.
    + left. now apply Matches_Lit.
    + right. match goal with H : Matches Eps _ |- _ => now inversion H end.
  - intros [-> | ->]; [apply MAltL; now apply Matches_Lit | apply MAltR; constructor].
Qed.

(** ** The built-ins on examples *)

Definition hello_bytes : list Byte.byte :=
  [Byte.x68; Byte.x65; Byte.x6c; Byte.x6c; Byte.x6f].

Definition ascii_text (s : JSString) : string :=
  string_of_list_ascii (map ascii_of_N s).

(** Literals as [String] prints their Numbers. *)
Example Number_toString_examples :
  map (fun '(d, x) => ascii_text (Number_toString (float_of_decimal false (Z.to_N d) x)))
    [(1, -1); (9999, -2); (5, 0); (1, 20); (1, 21); (1, 23); (1, -6); (1, -7);
     (123456, -3); (9007199254740993, 0); (5, -324); (2, -324);
     (17976931348623157, 292); (1, 400)]%Z
  = ["0.1"; "99.99"; "5"; "100000000000000000000"; "1e+21"; "1e+23"; "0.000001";
     "1e-7"; "123.456"; "9007199254740992"; "5e-324"; "0";
     "1.7976931348623157e+308"; "Infinity"]%string.
Proof. vm_compute. reflexivity. Qed.

Example JSON_parse_examples :
  JSON_parse (jsq " {'b': [1, true, null], '10': 'x', '2': {}, 'b': 'again'} ")
  = Some (JObject [(js "2", JObject []);
                   (js "10", JString (js "x"));
                   (js "b", JString (js "again"))])
  /\ map JSON_parse [js ""; js "{"; js "[1,]"; jsq "{'a':1,}"; js "01"; js "1 2";
                     js "tru"; js "+1"; js "1."; jsq "{'a' 1}"; jsq "'\x'"; js "undefined"]
     = repeat None 12
  /\ JSON_parse (jsq "'\u0041\n\/'") = Some (JString [65; 10; 47])
  /\ JSON_parse (js "-0") = Some (JNumber (Finite true 0 0)).
Proof. repeat split; vm_compute; reflexivity. Qed.

(** One, two, three and four bytes; a lone surrogate is U+FFFD. *)
Example utf8_encode_examples :
  utf8_encode [97] = [Byte.x61]
  /\ utf8_encode [233] = [Byte.xc3; Byte.xa9]
  /\ utf8_encode [8364] = [Byte.xe2; Byte.x82; Byte.xac]
  /\ utf8_encode [55357; 56832] = [Byte.xf0; Byte.x9f; Byte.x98; Byte.x80]
  /\ utf8_encode [55357] = [Byte.xef; Byte.xbf; Byte.xbd]
  /\ Buffer_byteLength [104; 233; 8364; 55357; 56832] = 10.
Proof. repeat split; vm_compute; reflexivity. Qed.

Example base64_decode_examples :
  base64_decode (js "aGVsbG8=") = hello_bytes
  /\ base64_decode (js "aGVsbG8") = hello_bytes
  /\ base64_decode (js "aGVs bG8=") = hello_bytes
  /\ base64_decode (js "aGVsbG8=aGVsbG8=") = hello_bytes
  /\ base64_decode (js "!") = []
  /\ base64_encode hello_bytes = js "aGVsbG8=".
Proof. repeat split; vm_compute; reflexivity. Qed.

Example parseInt_examples :
  map parseInt [js "42"; js " 7"; js "-5"; js "+3"; js "1.5"; js "12abc"; js "0x10";
                js "abc"; js ""; js "-"; js ".5"]
  = [Some 42; Some 7; Some (-5); Some 3; Some 1; Some 12; Some 0;
     None; None; None; None]%Z.
Proof. vm_compute. reflexivity. Qed.

(** ** The shape of a queue URL *)

(** [https://sqs.<region>.amazonaws.com[.cn]/<account>/<name>], the class
    of the characters of the queue name left open. *)
Definition url_shape (name_char : N -> bool) (url : JSString) : Prop :=
  exists (region : JSString) (cn : bool) (account name : JSString),
    url = js "https://sqs." ++ region ++ js ".amazonaws.com"
          ++ (if cn then js ".cn" else []) ++ js "/" ++ account ++ js "/" ++ name
    /\ region <> [] /\ Forall (fun c => region_char c = true) region
    /\ account <> [] /\ Forall (fun c => is_digit c = true) account
    /\ name <> [] /\ Forall (fun c => name_char c = true) name.

(** The shape as the specification words it: a queue name of one or more
    characters other than the slash. *)
Definition not_slash (c : N) : bool := negb (c =? 47).
Definition spec_url_shape : JSString -> Prop := url_shape not_slash.

Definition queue_url_pattern (name_char : N -> bool) : regex :=
  Seq (Lit (js "https://sqs."))
 (Seq (Plus (Chr region_char))
 (Seq (Lit (js ".amazonaws.com"))
 (Seq (Opt (Lit (js ".cn")))
 (Seq (Lit (js "/"))
 (Seq (Plus (Chr is_digit))
 (Seq (Lit (js "/"))
      (Plus (Chr name_char)))))))).

Lemma urlPattern_unfold : urlPattern = queue_url_pattern dot.
Proof. reflexivity. Qed.

Lemma queue_url_pattern_spec p url :
  regex_test (queue_url_pattern p) url = true <-> url_shape p url.
Proof.
  rewrite regex_test_spec. unfold queue_url_pattern, url_shape. split.
  - intros H.
    apply Matches_Seq in H as (s1 & r1 & -> & H1 & H).
    apply Matches_Seq in H as (s2 & r2 & -> & H2 & H).
    apply Matches_Seq in H as (s3 & r3 & -> & H3 & H).
    apply Matches_Seq in H as (s4 & r4 & -> & H4 & H).
    apply Matches_Seq in H as (s5 & r5 & -> & H5 & H).
    apply Matches_Seq in H as (s6 & r6 & -> & H6 & H).
    apply Matches_Seq in H as (s7 & r7 & -> & H7 & H8).
    apply Matches_Lit in H1, H3, H5, H7. subst.
    apply Matches_Plus_class in H2 as [? ?], H6 as [? ?], H8 as [? ?].
    apply Matches_Opt_Lit in H4.
    exists s2, (nonempty s4), s6, r7.
    destruct H4 as [-> | ->]; simpl; repeat split; assumption.
  - intros (region & cn & account & name & -> & ? & ? & ? & ? & ? & ?).
    repeat (apply MSeq; [|]);
      try (apply Matches_Lit; reflexivity);
      try (apply Matches_Plus_class; split; assumption).
    apply Matches_Opt_Lit. destruct cn; auto.
Qed.

(** ** Reasoning on actions *)

Lemma outcome_abind {A B} (m : Action A) (f : A -> Action B) :
  outcome (abind m f) =
  match outcome m with
  | Return a => outcome (f a)
  | Throw e => Throw e
  end.
Proof.
  destruct m as [l [a|e]]; simpl; [|reflexivity].
  destruct (f a); reflexivity.
Qed.

Lemma events_abind {A B} (m : Action A) (f : A -> Action B) :
  events (abind m f) =
  events m ++ match outcome m with
              | Return a => events (f a)
              | Throw _ => []
              end.
Proof.
  destruct m as [l [a|e]]; simpl; [|now rewrite app_nil_r].
  destruct (f a); reflexivity.
Qed.

Lemma outcome_acatch {A} (m : Action A) (h : Error -> Action A) :
  outcome (acatch m h) =
  match outcome m with
  | Return a => Return a
  | Throw e => outcome (h e)
  end.
Proof.
  destruct m as [l [a|e]]; simpl; [reflexivity|].
  destruct (h e); reflexivity.
Qed.

Lemma events_acatch {A} (m : Action A) (h : Error -> Action A) :
  events (acatch m h) =
  events m ++ match outcome m with
              | Return _ => []
              | Throw e => events (h e)
              end.
Proof.
  destruct m as [l [a|e]]; simpl; [now rewrite app_nil_r|].
  destruct (h e); reflexivity.
Qed.

(** The optional fields of the request, as [sendMessage] fills them. *)
Definition parseOptional (parse : JSString -> Result (Props MessageAttributeValue))
  (o : option JSString) : Result (option (Props MessageAttributeValue)) :=
  match o with
  | Some text =>
      if nonempty text then (a <- parse text ;; Return (Some a))%result
      else Return None
  | None => Return None
  end.

Definition supplied (o : option JSString) : option JSString :=
  match o with
  | Some s => orUndefined s
  | None => None
  end.

Definition positive_delay (o : option Z) : option Z :=
  match o with
  | Some d => if (0 <? d)%Z then Some d else None
  | None => None
  end.

Definition request_of (config : MessageConfig)
  (attrs sys : option (Props MessageAttributeValue)) : SendMessageCommandInput :=
  {| QueueUrl := queueUrl config;
     MessageBody := messageBody config;
     DelaySeconds := positive_delay (delaySeconds config);
     MessageAttributes := attrs;
     MessageSystemAttributes := sys;
     MessageGroupId := supplied (messageGroupId config);
     MessageDeduplicationId := supplied (messageDeduplicationId config) |}.

Lemma outcome_lift_bind {A B} (r : Result A) (k : A -> Action B) :
  outcome (abind (lift r) k) =
  match r with
  | Return a => outcome (k a)
  | Throw e => Throw e
  end.
Proof. now rewrite outcome_abind. Qed.

Lemma outcome_emit_bind {B} (ev : Event) (k : unit -> Action B) :
  outcome (abind (emit ev) k) = outcome (k tt).
Proof. now rewrite outcome_abind. Qed.

(** An action that submits nothing. *)
Definition quiet {A} (m : Action A) : Prop :=
  forall input, ~ In (Submit input) (events m).

Lemma quiet_abind {A B} (m : Action A) (f : A -> Action B) :
  quiet m -> (forall a, quiet (f a)) -> quiet (abind m f).
Proof.
  intros Hm Hf input. rewrite events_abind, in_app_iff. intros [H|H].
  - now apply (Hm input).
  - destruct (outcome m); [now apply (Hf a input) | exact H].
Qed.

Lemma quiet_lift {A} (r : Result A) : quiet (lift r).
Proof. intros input []. Qed.

Lemma quiet_ret {A} (a : A) : quiet (ret a).
Proof. intros input []. Qed.

Lemma quiet_raise {A} (e : Error) : quiet (@raise A e).
Proof. intros input []. Qed.

Lemma quiet_emit ev : is_submit ev = false -> quiet (emit ev).
Proof. intros H input [->|[]]. discriminate. Qed.

Lemma quiet_when b m : quiet m -> quiet (when b m).
Proof. destruct b; [trivial | intros _; apply quiet_ret]. Qed.

Lemma quiet_validateFifoQueue url g : quiet (validateFifoQueue url g).
Proof.
  unfold validateFifoQueue.
  destruct (endsWith url (js ".fifo") && negb (truthy g)); [apply quiet_raise|].
  apply quiet_when, quiet_emit. reflexivity.
Qed.

Create HintDb quiet.
#[local] Hint Resolve quiet_lift quiet_ret quiet_raise quiet_when quiet_validateFifoQueue : quiet.
#[local] Hint Extern 1 (quiet (emit _)) => apply quiet_emit; reflexivity : quiet.
#[local] Hint Extern 2 (quiet (abind _ _)) => apply quiet_abind; [|intros] : quiet.
#[local] Hint Extern 3 (quiet (match ?x with _ => _ end)) => destruct x : quiet.

Lemma submits_acatch {A} (m : Action A) (h : Error -> Action A) input :
  (forall e, quiet (h e)) ->
  In (Submit input) (events (acatch m h)) <-> In (Submit input) (events m).
Proof.
  intros Hh. rewrite events_acatch, in_app_iff. split; [|now left].
  intros [H|H]; [exact H|].
  destruct (outcome m) as [a|e]; [destruct H | now apply Hh in H].
Qed.

(** The log lines after a submission. *)
Lemma quiet_report {A} (response : SendMessageCommandOutput)
  (k : unit -> Action A) :
  (forall a, quiet (k a)) ->
  quiet (abind (emit (LogInfo (226 :: 339 :: 8220 :: js " Message sent successfully")))
           (fun _ => abind match MessageId response with
                           | Some id => when (nonempty id) (emit (LogInfo (js "Message ID: " ++ id)))
                           | None => ret tt
                           end
              (fun _ => abind match SequenceNumber response with
                              | Some n => when (nonempty n)
                                            (emit (LogInfo (js "Sequence number: " ++ n)))
                              | None => ret tt
                              end k))).
Proof. intros Hk. auto 20 with quiet. Qed.

Section BuildRequest.

Variable engine_message : EngineError -> JSString.
Variable Buffer_from_object : JSValue -> option (list Byte.byte).
Let parse := parseMessageAttributes Buffer_from_object.

(** How [buildRequest] ends, the log left aside. *)
Lemma buildRequest_outcome config :
  outcome (buildRequest Buffer_from_object config) =
  (validateQueueUrl (queueUrl config) ;;
   validateMessageBody (messageBody config) ;;
   validateDelaySeconds (delaySeconds config) ;;
   outcome (validateFifoQueue (queueUrl config) (messageGroupId config)) ;;
   attrs <- parseOptional parse (messageAttributes config) ;;
   sys <- parseOptional parse (systemAttributes config) ;;
   Return (request_of config attrs sys))%result.
Proof.
  unfold buildRequest, request_of, parse, parseSystemAttributes.
  destruct config as [url body ma d g dd sa]; cbn [queueUrl messageBody
    messageAttributes delaySeconds messageGroupId messageDeduplicationId
    systemAttributes].
  rewrite outcome_lift_bind.
  destruct (validateQueueUrl url); [cbn [bind]|reflexivity].
  rewrite outcome_lift_bind.
  destruct (validateMessageBody body); [cbn [bind]|reflexivity].
  rewrite outcome_lift_bind.
  destruct (validateDelaySeconds d); [cbn [bind]|reflexivity].
  rewrite outcome_abind.
  destruct (outcome (validateFifoQueue url g)); [cbn [bind]|reflexivity].
  rewrite !outcome_emit_bind.
  rewrite outcome_abind.
  assert (Hd : outcome (match d with
                        | Some d0 =>
                            if (0 <? d0)%Z
                            then abind (emit (LogInfo (js "Delay: "
                                     ++ Number_toString (Number_of_Z d0) ++ js " seconds")))
                                   (fun _ => ret (Some d0))
                            else ret None
                        | None => ret None
                        end) = Return (positive_delay d)).
  { destruct d as [d0|]; [|reflexivity]. unfold positive_delay.
    destruct (0 <? d0)%Z; [|reflexivity]. now rewrite outcome_emit_bind. }
  rewrite Hd; clear Hd.
  rewrite outcome_abind.
  assert (Hp : forall (label : JSString) (o : option JSString),
             outcome (match o with
                      | Some text =>
                          if nonempty text
                          then abind (lift (parseMessageAttributes Buffer_from_object text))
                                 (fun a => abind (emit (LogInfo (label
                                      ++ decimal (N.of_nat (length a)) ++ js " attribute(s)")))
                                    (fun _ => ret (Some a)))
                          else ret None
                      | None => ret None
                      end)
             = parseOptional (parseMessageAttributes Buffer_from_object) o).
  { intros label [text|]; [|reflexivity]. unfold parseOptional.
    destruct (nonempty text); [|reflexivity].
    rewrite outcome_lift_bind.
    destruct (parseMessageAttributes Buffer_from_object text); [|reflexivity].
    now rewrite outcome_emit_bind. }
  rewrite Hp.
  destruct (parseOptional _ ma) as [attrs|]; [cbn [bind]|reflexivity].
  rewrite outcome_abind, Hp.
  destruct (parseOptional _ sa) as [sys|]; [cbn [bind]|reflexivity].
  rewrite outcome_abind.
  assert (Hs : forall (label : JSString) (o : option JSString),
             outcome (match o with
                      | Some s =>
                          if nonempty s
                          then abind (emit (LogInfo (label ++ s))) (fun _ => ret (Some s))
                          else ret None
                      | None => ret None
                      end) = Return (supplied o)).
  { intros label [s|]; [|reflexivity]. unfold supplied, orUndefined.
    destruct (nonempty s); [|reflexivity]. now rewrite outcome_emit_bind. }
  rewrite Hs. rewrite outcome_abind, Hs. reflexivity.
Qed.

(** [buildRequest] submits nothing. *)
Lemma buildRequest_quiet config : quiet (buildRequest Buffer_from_object config).
Proof.
  unfold buildRequest. auto 30 with quiet.
Qed.

(** The two results [sendMessage] can return. *)
Definition succeeded (response : SendMessageCommandOutput) : MessageResult :=
  {| success := true;
     messageId := MessageId response;
     sequenceNumber := SequenceNumber response;
     md5OfBody := MD5OfMessageBody response;
     md5OfAttributes := MD5OfMessageAttributes response;
     error := None |}.

Definition failed (msg : JSString) : MessageResult :=
  {| success := false;
     messageId := None;
     sequenceNumber := None;
     md5OfBody := None;
     md5OfAttributes := None;
     error := Some msg |}.

Let error_text := message engine_message.
Let send_message := sendMessage engine_message Buffer_from_object.

(** [sendMessage] always returns: the result of the submission when the
    request was built and accepted, the message of the error otherwise. *)
Lemma sendMessage_outcome client config :
  outcome (send_message client config) =
  Return match outcome (buildRequest Buffer_from_object config) with
         | Return input =>
             match client input with
             | Return response => succeeded response
             | Throw e => failed (error_text e)
             end
         | Throw e => failed (error_text e)
         end.
Proof.
  unfold send_message, sendMessage.
  rewrite outcome_acatch, outcome_abind.
  destruct (outcome (buildRequest Buffer_from_object config)) as [input|e].
  - rewrite outcome_abind. unfold send at 1. cbn [outcome snd].
    destruct (client input) as [response|e].
    + rewrite outcome_emit_bind.
      rewrite outcome_abind.
      replace (outcome match MessageId response with
                       | Some id => when (nonempty id) (emit (LogInfo (js "Message ID: " ++ id)))
                       | None => ret tt
                       end) with (Return tt)
        by (destruct (MessageId response) as [[|]|]; reflexivity).
      rewrite outcome_abind.
      replace (outcome match SequenceNumber response with
                       | Some n => when (nonempty n) (emit (LogInfo (js "Sequence number: " ++ n)))
                       | None => ret tt
                       end) with (Return tt)
        by (destruct (SequenceNumber response) as [[|]|]; reflexivity).
      reflexivity.
    + now rewrite outcome_emit_bind.
  - now rewrite outcome_emit_bind.
Qed.

(** The client is called exactly with the request [buildRequest]
    returned, and not at all when it threw. *)
Lemma sendMessage_submits client config input :
  In (Submit input) (events (send_message client config)) <->
  outcome (buildRequest Buffer_from_object config) = Return input.
Proof.
  unfold send_message, sendMessage.
  rewrite submits_acatch by (intros e; auto 10 with quiet).
  rewrite events_abind, in_app_iff.
  pose proof (buildRequest_quiet config input) as Hq.
  destruct (outcome (buildRequest Buffer_from_object config)) as [input'|e].
  - rewrite events_abind, in_app_iff. unfold send at 1 2.
    cbn [events outcome fst snd].
    split.
    + intros [H|[[H|[]]|H]].
      * contradiction.
      * now injection H as ->.
      * destruct (client input') as [response|e]; [|destruct H].
        exfalso. revert H.
        refine (quiet_report response (fun _ => ret _) _ input).
        intros a. apply quiet_ret.
    + intros H. injection H as ->. right. left. now left.
  - split; [|discriminate]. intros [H|[]]. contradiction.
Qed.

End BuildRequest.

(** ** A runtime and two clients for the examples *)

Definition sample_engine_message (e : EngineError) : JSString :=
  match e with
  | JSONSyntaxError _ => js "Unexpected token in JSON"
  | NullToObject => js "Cannot convert undefined or null to object"
  | ReadOfNull p => js "Cannot read properties of null (reading '" ++ p ++ js "')"
  | NotPrimitive => js "Cannot convert object to primitive value"
  | BufferArgument _ => js "The first argument must be of type string"
  end.

Definition no_array_like (v : JSValue) : option (list Byte.byte) := None.

Definition accepting_client : SQSClient :=
  fun _ => Return {| MessageId := Some (js "5fea7756-0ea4-451a-a703-a558b933e274");
                     SequenceNumber := None;
                     MD5OfMessageBody := Some (js "49f68a5c8493ec2c0bf489821c21fc3b");
                     MD5OfMessageAttributes := None |}.

Definition rejecting_client : SQSClient :=
  fun _ => Throw (Client (js "The specified queue does not exist.")).

Definition standard_url : JSString :=
  js "https://sqs.us-east-1.amazonaws.com/123456789012/my-queue".

Definition fifo_url : JSString :=
  js "https://sqs.us-east-1.amazonaws.com/123456789012/q.fifo".

Definition plain_config (url : JSString) : MessageConfig :=
  {| queueUrl := url;
     messageBody := js "hi";
     messageAttributes := None;
     delaySeconds := None;
     messageGroupId := None;
     messageDeduplicationId := None;
     systemAttributes := None |}.

(** ** The size of the body *)

Lemma code_points_plain s :
  Forall (fun c => is_high_surrogate c = false /\ is_low_surrogate c = false) s ->
  code_points s = s.
Proof.
  induction 1 as [|c s [Hh Hl] _ IH]; [reflexivity|].
  simpl. rewrite Hh, Hl. now f_equal.
Qed.

Lemma byteLength_repeat c n :
  is_high_surrogate c = false -> is_low_surrogate c = false ->
  Buffer_byteLength (repeat c n) = N.of_nat (n * length (utf8_of_code_point c)).
Proof.
  intros Hh Hl. unfold Buffer_byteLength, utf8_encode.
  rewrite code_points_plain by (apply Forall_forall; intros x Hx;
                                apply repeat_spec in Hx; now subst).
  f_equal. induction n as [|n IH]; [reflexivity|].
  simpl. now rewrite length_app, IH.
Qed.

Lemma validateMessageBody_spec body :
  validateMessageBody body =
  if maxSizeBytes <? Buffer_byteLength body
  then Throw (BodyTooLarge (Buffer_byteLength body)) else Return tt.
Proof. reflexivity. Qed.

(** C6. [validateMessageBody] measures the body in the bytes of its UTF-8
    encoding and throws the size-limit error exactly when there are more
    than 262144 of them. *)
Theorem C6_validateMessageBody_bytes : forall body,
  Buffer_byteLength body = N.of_nat (length (utf8_encode body))
  /\ (validateMessageBody body = Return tt <-> Buffer_byteLength body <= 262144)
  /\ (validateMessageBody body = Throw (BodyTooLarge (Buffer_byteLength body))
      <-> 262144 < Buffer_byteLength body)
  /\ kind (BodyTooLarge (Buffer_byteLength body)) = Some SizeLimitError.
Proof.
  intros body. rewrite validateMessageBody_spec.
  change maxSizeBytes with 262144.
  split; [reflexivity|].
  destruct (N.ltb_spec 262144 (Buffer_byteLength body)) as [H|H];
    repeat split; try discriminate; try reflexivity; intros; lia.
Qed.

(** At the boundary: 262144 bytes pass, 262145 bytes do not; and 131073
    characters of two bytes each are too many bytes, though few
    characters. *)
Lemma C6_boundary :
  validateMessageBody (repeat 97 (N.to_nat 262144)) = Return tt
  /\ validateMessageBody (repeat 97 (N.to_nat 262145)) = Throw (BodyTooLarge 262145)
  /\ length (repeat 233 (N.to_nat 131073)) = N.to_nat 131073
  /\ validateMessageBody (repeat 233 (N.to_nat 131073)) = Throw (BodyTooLarge 262146).
Proof.
  assert (Ha : forall n, Buffer_byteLength (repeat 97 (N.to_nat n)) = n).
  { intros n. rewrite byteLength_repeat by reflexivity. simpl length. lia. }
  assert (Hb : forall n, Buffer_byteLength (repeat 233 (N.to_nat n)) = 2 * n).
  { intros n. rewrite byteLength_repeat by reflexivity. simpl length. lia. }
  split; [|split; [|split]].
  - apply (proj1 (proj2 (C6_validateMessageBody_bytes _))). rewrite Ha. lia.
  - replace (BodyTooLarge 262145)
      with (BodyTooLarge (Buffer_byteLength (repeat 97 (N.to_nat 262145))))
      by (now rewrite Ha).
    apply (proj1 (proj2 (proj2 (C6_validateMessageBody_bytes _)))). rewrite Ha. lia.
  - apply repeat_length.
  - replace (BodyTooLarge 262146)
      with (BodyTooLarge (Buffer_byteLength (repeat 233 (N.to_nat 131073))))
      by (now rewrite Hb).
    apply (proj1 (proj2 (proj2 (C6_validateMessageBody_bytes _)))). rewrite Hb. lia.
Defined.

(** ** The delay *)

Lemma validateDelaySeconds_spec d :
  validateDelaySeconds (Some d) =
  if ((d <? 0) || (900 <? d))%Z then Throw (DelayOutOfRange d) else Return tt.
Proof. reflexivity. Qed.

Lemma buildRequest_returns bfo config input :
  outcome (buildRequest bfo config) = Return input ->
  exists attrs sys, input = request_of config attrs sys.
Proof.
  rewrite buildRequest_outcome.
  destruct (validateQueueUrl _); [|discriminate].
  destruct (validateMessageBody _); [|discriminate].
  destruct (validateDelaySeconds _); [|discriminate].
  destruct (outcome (validateFifoQueue _ _)); [|discriminate].
  cbn [bind].
  destruct (parseOptional _ (messageAttributes config)) as [attrs|]; [|discriminate].
  destruct (parseOptional _ (systemAttributes config)) as [sys|]; [|discriminate].
  cbn [bind]. intros H. injection H as <-. now exists attrs, sys.
Qed.

(** C7. A delay that is present is rejected with the range error exactly
    when it lies outside 0..900; an absent delay is valid; and a request
    that is built carries no delay field when the delay is absent or 0
    (and carries the delay when it is positive). *)
Theorem C7_delay_range_and_omission :
  forall (bfo : JSValue -> option (list Byte.byte)) (d : Z),
  (validateDelaySeconds (Some d) = Return tt <-> (0 <= d <= 900)%Z)
  /\ (validateDelaySeconds (Some d) = Throw (DelayOutOfRange d) <-> (d < 0 \/ 900 < d)%Z)
  /\ kind (DelayOutOfRange d) = Some RangeError
  /\ validateDelaySeconds None = Return tt
  /\ (forall config input,
        outcome (buildRequest bfo config) = Return input ->
        (delaySeconds config = None \/ delaySeconds config = Some 0%Z ->
         DelaySeconds input = None)
        /\ (delaySeconds config = Some d -> (0 < d)%Z -> DelaySeconds input = Some d)).
Proof.
  intros bfo d. rewrite validateDelaySeconds_spec.
  destruct (Z.ltb_spec d 0) as [H1|H1]; destruct (Z.ltb_spec 900 d) as [H2|H2]; simpl;
    (split; [|split; [|split; [|split]]]);
    try reflexivity; try (split; [discriminate | intros; lia]);
    try (split; [reflexivity | intros; lia]);
    try (split; intros; [lia | reflexivity]).
  all: intros config input Hb;
    apply buildRequest_returns in Hb as (attrs & sys & ->); simpl;
    split; [intros [-> | ->]; reflexivity | intros -> Hd; simpl].
  all: destruct (Z.ltb_spec 0 d); [reflexivity | lia].
Qed.

Definition delayed_config (d : Z) : MessageConfig :=
  {| queueUrl := standard_url;
     messageBody := js "hi";
     messageAttributes := None;
     delaySeconds := Some d;
     messageGroupId := None;
     messageDeduplicationId := None;
     systemAttributes := None |}.

(** -1 and 901 are rejected, 0 and 900 accepted; with the delay 0 the
    request is built without the field, with 900 it carries 900. *)
Lemma C7_boundary :
  validateDelaySeconds (Some (-1)%Z) = Throw (DelayOutOfRange (-1))
  /\ validateDelaySeconds (Some 901%Z) = Throw (DelayOutOfRange 901)
  /\ validateDelaySeconds (Some 0%Z) = Return tt
  /\ validateDelaySeconds (Some 900%Z) = Return tt
  /\ (outcome (buildRequest no_array_like (delayed_config 0))
        = Return (request_of (delayed_config 0) None None)
      /\ DelaySeconds (request_of (delayed_config 0) None None) = None)
  /\ (outcome (buildRequest no_array_like (delayed_config 900))
        = Return (request_of (delayed_config 900) None None)
      /\ DelaySeconds (request_of (delayed_config 900) None None) = Some 900%Z).
Proof.
  assert (B0 : outcome (buildRequest no_array_like (delayed_config 0))
               = Return (request_of (delayed_config 0) None None))
    by (vm_compute; reflexivity).
  assert (B900 : outcome (buildRequest no_array_like (delayed_config 900))
                 = Return (request_of (delayed_config 900) None None))
    by (vm_compute; reflexivity).
  split; [|split; [|split; [|split; [|split; split]]]].
  - apply (proj1 (proj2 (C7_delay_range_and_omission no_array_like (-1)))). lia.
  - apply (proj1 (proj2 (C7_delay_range_and_omission no_array_like 901))). lia.
  - apply (proj1 (C7_delay_range_and_omission no_array_like 0)). lia.
  - apply (proj1 (C7_delay_range_and_omission no_array_like 900)). lia.
  - exact B0.
  - apply (proj2 (proj2 (proj2 (proj2 (C7_delay_range_and_omission no_array_like 0))))
             _ _ B0). now right.
  - exact B900.
  - apply (proj2 (proj2 (proj2 (proj2 (C7_delay_range_and_omission no_array_like 900))))
             _ _ B900); [reflexivity | lia].
Defined.

(** ** FIFO queues *)

(** C8. On a URL that ends in [.fifo], a missing (or empty) group id is
    the missing-required-field error; on any other URL a group id draws a
    warning and nothing else, and the request that is built carries it. *)
Theorem C8_fifo_group_id :
  forall (bfo : JSValue -> option (list Byte.byte)) (url : JSString),
  (endsWith url (js ".fifo") = true ->
   forall g, truthy g = false ->
     validateFifoQueue url g = ([], Throw GroupIdRequired)
     /\ kind GroupIdRequired = Some MissingRequiredFieldError)
  /\ (endsWith url (js ".fifo") = false ->
      forall id, id <> [] ->
        validateFifoQueue url (Some id) = ([LogWarning fifo_warning], Return tt)
        /\ forall config input,
             queueUrl config = url -> messageGroupId config = Some id ->
             outcome (buildRequest bfo config) = Return input ->
             MessageGroupId input = Some id).
Proof.
  intros bfo url. split.
  - intros Hf g Hg. unfold validateFifoQueue. rewrite Hf, Hg. now split.
  - intros Hf id Hid. unfold validateFifoQueue. rewrite Hf.
    destruct id as [|c id]; [congruence|]. split; [reflexivity|].
    intros config input _ Hg Hb.
    apply buildRequest_returns in Hb as (attrs & sys & ->).
    simpl. now rewrite Hg.
Qed.

Definition grouped_config (url : JSString) (g : JSString) : MessageConfig :=
  {| queueUrl := url;
     messageBody := js "hi";
     messageAttributes := None;
     delaySeconds := None;
     messageGroupId := Some g;
     messageDeduplicationId := None;
     systemAttributes := None |}.

(** A FIFO URL without a group id is rejected; a standard URL with the
    group id [g1] is warned about, and the request carries [g1]. *)
Lemma C8_examples :
  validateFifoQueue fifo_url None = ([], Throw GroupIdRequired)
  /\ validateFifoQueue standard_url (Some (js "g1")) = ([LogWarning fifo_warning], Return tt)
  /\ outcome (buildRequest no_array_like (grouped_config standard_url (js "g1")))
     = Return (request_of (grouped_config standard_url (js "g1")) None None)
  /\ MessageGroupId (request_of (grouped_config standard_url (js "g1")) None None)
     = Some (js "g1").
Proof.
  assert (B : outcome (buildRequest no_array_like (grouped_config standard_url (js "g1")))
              = Return (request_of (grouped_config standard_url (js "g1")) None None))
    by (vm_compute; reflexivity).
  assert (Hs : endsWith standard_url (js ".fifo") = false) by reflexivity.
  assert (Hg : js "g1" <> []) by discriminate.
  split; [|split; [|split]].
  - apply (proj1 (C8_fifo_group_id no_array_like fifo_url)); reflexivity.
  - exact (proj1 (proj2 (C8_fifo_group_id no_array_like standard_url) Hs _ Hg)).
  - exact B.
  - exact (proj2 (proj2 (C8_fifo_group_id no_array_like standard_url) Hs _ Hg)
             (grouped_config standard_url (js "g1")) _ eq_refl eq_refl B).
Defined.

(** ** The order of the rules *)

(** The six rules, each by the validator or parser of the source that
    enforces it; the two attribute rules apply to a text that is supplied
    (not empty). *)
Definition attributes_rule (parse : JSString -> Result (Props MessageAttributeValue))
  (o : option JSString) : Result unit :=
  (parseOptional parse o ;; Return tt)%result.

Definition rules (bfo : JSValue -> option (list Byte.byte)) (config : MessageConfig)
  : list (Result unit) :=
  [ validateQueueUrl (queueUrl config);
    validateMessageBody (messageBody config);
    validateDelaySeconds (delaySeconds config);
    outcome (validateFifoQueue (queueUrl config) (messageGroupId config));
    attributes_rule (parseMessageAttributes bfo) (messageAttributes config);
    attributes_rule (parseSystemAttributes bfo) (systemAttributes config) ].

Fixpoint first_violation (rs : list (Result unit)) : option Error :=
  match rs with
  | [] => None
  | Return _ :: rs' => first_violation rs'
  | Throw e :: _ => Some e
  end.

(** C9. The rules are applied in the order URL, body, delay, FIFO,
    message attributes, system attributes.  When one is violated, the
    first violated rule is the error: no request is built, the client is
    not called, and [sendMessage] returns the failure with the message of
    that error.  When none is violated, the request is built and
    submitted. *)
Theorem C9_first_violation_wins :
  forall (em : EngineError -> JSString) (bfo : JSValue -> option (list Byte.byte))
         (client : SQSClient) (config : MessageConfig),
  match first_violation (rules bfo config) with
  | Some e =>
      outcome (buildRequest bfo config) = Throw e
      /\ outcome (sendMessage em bfo client config) = Return (failed (message em e))
      /\ quiet (sendMessage em bfo client config)
  | None =>
      exists input,
        outcome (buildRequest bfo config) = Return input
        /\ In (Submit input) (events (sendMessage em bfo client config))
  end.
Proof.
  intros em bfo client config.
  assert (Hb : outcome (buildRequest bfo config) =
               match first_violation (rules bfo config) with
               | Some e => Throw e
               | None => outcome (buildRequest bfo config)
               end
               /\ (first_violation (rules bfo config) = None ->
                   exists input, outcome (buildRequest bfo config) = Return input)).
  { rewrite buildRequest_outcome. unfold rules, attributes_rule, parseSystemAttributes.
    cbn [first_violation].
    destruct (validateQueueUrl _); [|split; [reflexivity|discriminate]].
    destruct (validateMessageBody _); [|split; [reflexivity|discriminate]].
    destruct (validateDelaySeconds _); [|split; [reflexivity|discriminate]].
    destruct (outcome (validateFifoQueue _ _)); [|split; [reflexivity|discriminate]].
    cbn [bind].
    destruct (parseOptional _ (messageAttributes config)) as [attrs|];
      [|split; [reflexivity|discriminate]].
    cbn [bind].
    destruct (parseOptional _ (systemAttributes config)) as [sys|];
      [|split; [reflexivity|discriminate]].
    cbn [bind]. split; [reflexivity|]. intros _. eauto. }
  destruct Hb as [Hb Hn].
  destruct (first_violation (rules bfo config)) as [e|].
  - split; [exact Hb|]. split.
    + now rewrite sendMessage_outcome, Hb.
    + intros input Hin. apply sendMessage_submits in Hin. congruence.
  - destruct (Hn eq_refl) as [input Hi]. exists input. split; [exact Hi|].
    now apply sendMessage_submits.
Qed.

Definition broken_config (url : JSString) (d : Z) (attrs sys : JSString) : MessageConfig :=
  {| queueUrl := url;
     messageBody := js "hi";
     messageAttributes := Some attrs;
     delaySeconds := Some d;
     messageGroupId := None;
     messageDeduplicationId := None;
     systemAttributes := Some sys |}.

(** Configurations that violate several rules: the earliest one is
    reported, and nothing is submitted; a configuration that violates
    none is submitted. *)
Lemma C9_examples :
  (outcome (buildRequest no_array_like
              (broken_config (js "http://localhost:4566/000000000000/q") 901 (js "{") (js "[")))
   = Throw (InvalidQueueUrl (js "http://localhost:4566/000000000000/q")))
  /\ (outcome (buildRequest no_array_like (broken_config fifo_url 901 (js "{") (js "[")))
      = Throw (DelayOutOfRange 901))
  /\ (outcome (buildRequest no_array_like (broken_config fifo_url 5 (js "{") (js "[")))
      = Throw GroupIdRequired)
  /\ (outcome (buildRequest no_array_like (broken_config standard_url 5 (js "{") (js "[")))
      = Throw (ParseFailed (Engine (JSONSyntaxError (js "{"))))
      /\ quiet (sendMessage sample_engine_message no_array_like accepting_client
                  (broken_config standard_url 5 (js "{") (js "["))))
  /\ (outcome (buildRequest no_array_like (broken_config standard_url 5 (js "{}") (js "[")))
      = Throw (ParseFailed (Engine (JSONSyntaxError (js "[")))))
  /\ (exists input,
        outcome (buildRequest no_array_like (plain_config standard_url)) = Return input
        /\ In (Submit input)
             (events (sendMessage sample_engine_message no_array_like accepting_client
                        (plain_config standard_url)))).
Proof.
  pose proof (fun config => C9_first_violation_wins sample_engine_message no_array_like
                              accepting_client config) as H.
  split; [|split; [|split; [|split; [|split]]]].
  - specialize (H (broken_config (js "http://localhost:4566/000000000000/q") 901
                     (js "{") (js "["))).
    exact (proj1 H).
  - specialize (H (broken_config fifo_url 901 (js "{") (js "["))). exact (proj1 H).
  - specialize (H (broken_config fifo_url 5 (js "{") (js "["))). exact (proj1 H).
  - specialize (H (broken_config standard_url 5 (js "{") (js "["))).
    exact (conj (proj1 H) (proj2 (proj2 H))).
  - specialize (H (broken_config standard_url 5 (js "{}") (js "["))). exact (proj1 H).
  - exact (H (plain_config standard_url)).
Defined.

(** ** The result of [sendMessage] *)

(** C10. [sendMessage] never throws.  It returns either the success
    result (flag set, the fields of the client's response, no error
    text), when the request was built and the client accepted it, or the
    failure result (flag cleared, the error text and nothing else), when
    a rule was violated or the client rejected the request. *)
Theorem C10_sendMessage_result :
  forall (em : EngineError -> JSString) (bfo : JSValue -> option (list Byte.byte))
         (client : SQSClient) (config : MessageConfig),
  exists result,
    outcome (sendMessage em bfo client config) = Return result
    /\ (success result = true <-> error result = None)
    /\ ((exists input response,
           outcome (buildRequest bfo config) = Return input
           /\ client input = Return response
           /\ result = succeeded response
           /\ success result = true /\ error result = None)
        \/ (exists e,
              (outcome (buildRequest bfo config) = Throw e
               \/ exists input, outcome (buildRequest bfo config) = Return input
                                /\ client input = Throw e)
              /\ result = failed (message em e)
              /\ success result = false /\ error result = Some (message em e)
              /\ messageId result = None /\ sequenceNumber result = None
              /\ md5OfBody result = None /\ md5OfAttributes result = None)).
Proof.
  intros em bfo client config. rewrite sendMessage_outcome.
  destruct (outcome (buildRequest bfo config)) as [input|e].
  - destruct (client input) as [response|e] eqn:Hc.
    + exists (succeeded response). split; [reflexivity|]. split; [now split|].
      left. exists input, response. repeat split; assumption.
    + exists (failed (message em e)). split; [reflexivity|].
      split; [split; discriminate|]. right. exists e.
      split; [right; now exists input|]. repeat split.
  - exists (failed (message em e)). split; [reflexivity|].
    split; [split; discriminate|]. right. exists e.
    split; [now left|]. repeat split.
Qed.

(** The three ways a call ends: accepted by the client, rejected by the
    client, stopped by a rule. *)
Lemma C10_examples :
  (exists result,
     outcome (sendMessage sample_engine_message no_array_like accepting_client
                (plain_config standard_url)) = Return result
     /\ (success result = true <-> error result = None))
  /\ outcome (sendMessage sample_engine_message no_array_like accepting_client
                (plain_config standard_url))
     = Return {| success := true;
                 messageId := Some (js "5fea7756-0ea4-451a-a703-a558b933e274");
                 sequenceNumber := None;
                 md5OfBody := Some (js "49f68a5c8493ec2c0bf489821c21fc3b");
                 md5OfAttributes := None;
                 error := None |}
  /\ outcome (sendMessage sample_engine_message no_array_like rejecting_client
                (plain_config standard_url))
     = Return (failed (js "The specified queue does not exist."))
  /\ outcome (sendMessage sample_engine_message no_array_like accepting_client
                (plain_config fifo_url))
     = Return (failed
                 (js "message-group-id is required for FIFO queues (queue URL ends with .fifo)")).
Proof.
  split; [|split; [|split]].
  - destruct (C10_sendMessage_result sample_engine_message no_array_like
                accepting_client (plain_config standard_url)) as (result & H & Hx & _).
    exists result. split; assumption.
  - vm_compute. reflexivity.
  - vm_compute. reflexivity.
  - vm_compute. reflexivity.
Defined.

(** ** Attributes *)

Lemma In_replace_prop {V} (k : JSString) (v : V) ps k' v' :
  In (k', v') (replace_prop k v ps) -> (k', v') = (k, v) \/ In (k', v') ps.
Proof.
  induction ps as [|[k0 v0] ps IH]; simpl; [tauto|].
  destruct (jseq k k0) eqn:E.
  - apply jseq_spec in E. subst k0. intros [H|H]; [now left | right; now right].
  - intros [H|H]; [right; now left|]. destruct (IH H); [now left | right; now right].
Qed.

Lemma In_insert_index {V} i (k : JSString) (v : V) ps x :
  In x (insert_index i k v ps) -> x = (k, v) \/ In x ps.
Proof.
  induction ps as [|[k0 v0] ps IH]; simpl.
  - intros [H|[]]. now left.
  - destruct (array_index k0) as [j|].
    + destruct (j <? i).
      * intros [H|H]; [right; now left|]. destruct (IH H); [now left | right; now right].
      * intros [H|H]; [now left | now right].
    + intros [H|H]; [now left | now right].
Qed.

Lemma In_assign {V} (k : JSString) (v : V) ps k' v' :
  In (k', v') (assign k v ps) -> (k', v') = (k, v) \/ In (k', v') ps.
Proof.
  unfold assign, define_prop. destruct (jseq k (js "__proto__")); [now right|].
  destruct (lookup k ps).
  - apply In_replace_prop.
  - destruct (array_index k).
    + apply In_insert_index.
    + rewrite in_app_iff. intros [H|[H|[]]]; [now right | now left].
Qed.

Section Attributes.

Variable bfo : JSValue -> option (list Byte.byte).

Lemma parseMessageAttributes_unfold text :
  parseMessageAttributes bfo text =
  match JSON_parse text with
  | None => Throw (ParseFailed (Engine (JSONSyntaxError text)))
  | Some parsed =>
      match Object_entries parsed with
      | Throw e => Throw (ParseFailed e)
      | Return entries =>
          if (10 <? length entries)%nat
          then Throw (ParseFailed (TooManyAttributes (length entries)))
          else try_catch (parseEntries bfo entries []) (fun e => Throw (ParseFailed e))
      end
  end.
Proof.
  unfold parseMessageAttributes, Object_keys.
  destruct (JSON_parse text) as [parsed|]; [|reflexivity]. cbn [bind].
  destruct (Object_entries parsed) as [entries|e]; [|reflexivity]. cbn [bind].
  rewrite length_map. now destruct (10 <? length entries)%nat.
Qed.

(** Whatever [parseMessageAttributes] throws is the one wrapped error. *)
Lemma parseMessageAttributes_throws text e :
  parseMessageAttributes bfo text = Throw e -> exists cause, e = ParseFailed cause.
Proof.
  rewrite parseMessageAttributes_unfold.
  destruct (JSON_parse text) as [parsed|]; [|intros H; injection H as <-; eauto].
  destruct (Object_entries parsed) as [entries|e']; [|intros H; injection H as <-; eauto].
  destruct (10 <? length entries)%nat; [intros H; injection H as <-; eauto|].
  destruct (parseEntries bfo entries []); simpl; [discriminate|].
  intros H; injection H as <-; eauto.
Qed.

(** The loop stops at the first entry that is refused. *)
Lemma parseEntries_all entries : forall acc result,
  parseEntries bfo entries acc = Return result ->
  forall key value, In (key, value) entries ->
    exists a, parseAttribute bfo key value = Return a.
Proof.
  induction entries as [|[k v] entries IH]; intros acc result H key value Hin.
  - destruct Hin.
  - simpl in H. destruct (parseAttribute bfo k v) as [a|] eqn:Ea; [|discriminate].
    cbn [bind] in H. destruct Hin as [Hin|Hin].
    + injection Hin as <- <-. eauto.
    + eapply IH; eassumption.
Qed.

(** Every attribute of the result was made from an entry of its key. *)
Lemma parseEntries_sound entries : forall acc result,
  parseEntries bfo entries acc = Return result ->
  forall key a, In (key, a) result ->
    In (key, a) acc
    \/ exists value, In (key, value) entries /\ parseAttribute bfo key value = Return a.
Proof.
  induction entries as [|[k v] entries IH]; intros acc result H key a Hin.
  - simpl in H. injection H as <-. now left.
  - simpl in H. destruct (parseAttribute bfo k v) as [a0|] eqn:Ea; [|discriminate].
    cbn [bind] in H.
    destruct (IH _ _ H _ _ Hin) as [Hacc | (value & Hv & Hp)].
    + apply In_assign in Hacc as [Heq | Hacc]; [|now left].
      injection Heq as -> ->. right. exists v. split; [now left | assumption].
    + right. exists value. split; [now right | assumption].
Qed.

Lemma valid_type_cases ty :
  In ty validDataTypes -> ty = js "String" \/ ty = js "Number" \/ ty = js "Binary".
Proof. intros [<-|[<-|[<-|[]]]]; auto. Qed.

(** The loop body on an entry whose [DataType] is one of the three. *)
Lemma parseAttribute_typed key props ty :
  lookup (js "DataType") props = Some (JString ty) ->
  In ty validDataTypes ->
  parseAttribute bfo key (JObject props) =
  ((if jseq ty (js "String") || jseq ty (js "Number") then
      match lookup (js "StringValue") props with
      | None => Throw (MissingStringValue key ty)
      | Some _ => Return tt
      end
    else if jseq ty (js "Binary") then
      match lookup (js "BinaryValue") props with
      | None => Throw (MissingBinaryValue key)
      | Some _ => Return tt
      end
    else Return tt) ;;
   text <- match lookup (js "StringValue") props with
           | Some v => (s <- ToString v ;; Return (Some s))
           | None => Return None
           end ;;
   bytes <- match lookup (js "BinaryValue") props with
            | Some v => (b <- Buffer_from_base64 bfo v ;; Return (Some b))
            | None => Return None
            end ;;
   Return {| DataType := ty; StringValue := text; BinaryValue := bytes |})%result.
Proof.
  intros Hdt Hty. unfold parseAttribute. cbn [member bind]. rewrite Hdt.
  apply valid_type_cases in Hty as [->|[->| ->]]; reflexivity.
Qed.

(** An entry is accepted only if it is an object with a valid type. *)
Lemma parseAttribute_accepts key value a :
  parseAttribute bfo key value = Return a ->
  exists props ty,
    value = JObject props
    /\ lookup (js "DataType") props = Some (JString ty)
    /\ In ty validDataTypes.
Proof.
  unfold parseAttribute.
  destruct value as [| | | | |props]; cbn [member bind ToBoolean negb]; try discriminate.
  destruct (lookup (js "DataType") props) as [dt|] eqn:Hdt; [|discriminate].
  destruct (negb (ToBoolean (Some dt))); [discriminate|].
  destruct (includes validDataTypes (Some dt)) eqn:Hin; cbn [negb].
  - intros _. destruct dt as [| | |s| |]; try discriminate.
    exists props, s. split; [reflexivity|]. split; [assumption|].
    unfold includes in Hin. apply existsb_exists in Hin as (ty & Hty & Heq).
    apply jseq_spec in Heq. now subst.
  - destruct (ToString dt); discriminate.
Qed.

(** What an accepted entry becomes: its type, and each value field
    that is present, converted; the field its type requires is among
    them. *)
Lemma parseAttribute_payload key value a :
  parseAttribute bfo key value = Return a ->
  exists props,
    value = JObject props
    /\ lookup (js "DataType") props = Some (JString (DataType a))
    /\ In (DataType a) validDataTypes
    /\ match lookup (js "StringValue") props with
       | Some v => exists s, ToString v = Return s /\ StringValue a = Some s
       | None => StringValue a = None
       end
    /\ match lookup (js "BinaryValue") props with
       | Some v => exists b, Buffer_from_base64 bfo v = Return b /\ BinaryValue a = Some b
       | None => BinaryValue a = None
       end
    /\ (DataType a = js "String" \/ DataType a = js "Number" ->
        lookup (js "StringValue") props <> None)
    /\ (DataType a = js "Binary" -> lookup (js "BinaryValue") props <> None).
Proof.
  intros H. destruct (parseAttribute_accepts _ _ H) as (props & ty & -> & Hdt & Hty).
  exists props. split; [reflexivity|].
  rewrite (parseAttribute_typed key props Hdt Hty) in H.
  destruct (lookup (js "StringValue") props) as [v|];
    destruct (lookup (js "BinaryValue") props) as [w|];
    try destruct (ToString v) as [s|];
    try destruct (Buffer_from_base64 bfo w) as [b|].
  all: pose proof Hty as Hty'.
  all: apply valid_type_cases in Hty' as [->|[->| ->]]; cbn in H; try discriminate.
  all: injection H as <-; cbn [DataType StringValue BinaryValue].
  all: repeat (split; [solve [assumption | reflexivity | eauto]|]).
  all: split; try discriminate; intros; try discriminate.
  all: match goal with H : _ \/ _ |- _ => destruct H; discriminate end.
Qed.

End Attributes.

(** *** Base64 *)

Lemma unbase64_char v : v < 64 -> unbase64 (base64_char v mod 256) = Some v.
Proof.
  intros H.
  assert (Hall : forallb (fun v => match unbase64 (base64_char v mod 256) with
                                   | Some w => w =? v
                                   | None => false
                                   end) (map N.of_nat (seq 0 64)) = true)
    by (vm_compute; reflexivity).
  rewrite forallb_forall in Hall.
  assert (Hin : In v (map N.of_nat (seq 0 64))).
  { apply in_map_iff. exists (N.to_nat v). split; [lia|]. apply in_seq. lia. }
  specialize (Hall v Hin).
  destruct (unbase64 (base64_char v mod 256)); [|discriminate].
  apply N.eqb_eq in Hall. now subst.
Qed.

Lemma sextets_char v s : v < 64 -> sextets (base64_char v :: s) = v :: sextets s.
Proof. intros H. simpl. now rewrite unbase64_char. Qed.

Lemma byte_of_to_N x n : n = Byte.to_N x -> byte_of_N n = x.
Proof.
  intros ->. unfold byte_of_N.
  pose proof (Byte.to_N_bounded x).
  rewrite N.mod_small by lia. now rewrite Byte.of_to_N.
Qed.

Ltac divmod t k :=
  pose proof (N.div_mod t k ltac:(discriminate));
  pose proof (N.mod_lt t k ltac:(discriminate)).

(** The four 6-bit values of three bytes, and the bytes back. *)
Lemma sextets_of_bytes x y z :
  x < 256 -> y < 256 -> z < 256 ->
  let a := x / 4 in
  let b := (x mod 4) * 16 + y / 16 in
  let c := (y mod 16) * 4 + z / 64 in
  let d := z mod 64 in
  (a < 64 /\ b < 64 /\ c < 64 /\ d < 64)
  /\ a * 4 + b / 16 = x
  /\ (b mod 16) * 16 + c / 4 = y
  /\ (c mod 4) * 64 + d = z.
Proof.
  intros Hx Hy Hz a b c d. subst a b c d.
  divmod x 4. divmod y 16. divmod z 64.
  divmod ((x mod 4) * 16 + y / 16) 16.
  divmod ((y mod 16) * 4 + z / 64) 4.
  generalize dependent (((x mod 4) * 16 + y / 16) / 16).
  generalize dependent (((x mod 4) * 16 + y / 16) mod 16).
  generalize dependent (((y mod 16) * 4 + z / 64) / 4).
  generalize dependent (((y mod 16) * 4 + z / 64) mod 4).
  generalize dependent (x / 4). generalize dependent (x mod 4).
  generalize dependent (y / 16). generalize dependent (y mod 16).
  generalize dependent (z / 64). generalize dependent (z mod 64).
  intros. repeat split; lia.
Qed.

Lemma byte_bound (x : Byte.byte) : Byte.to_N x < 256.
Proof. pose proof (Byte.to_N_bounded x). lia. Qed.

(** Valid base64 decodes to the bytes it encodes. *)
Lemma base64_decode_encode bs : base64_decode (base64_encode bs) = bs.
Proof.
  unfold base64_decode.
  assert (H : forall n bs, (length bs < n)%nat ->
                           bytes_of_sextets (sextets (base64_encode bs)) = bs);
    [|apply (H (S (length bs))); lia].
  clear bs. induction n as [|n IH]; intros bs Hn; [lia|].
  destruct bs as [|x [|y [|z rest]]]; [reflexivity| | |].
  - destruct (sextets_of_bytes (byte_bound x) (byte_bound Byte.x00) (byte_bound Byte.x00))
      as ((Ha & Hb & _ & _) & E1 & _ & _).
    change (Byte.to_N Byte.x00 / 16) with 0 in *. rewrite N.add_0_r in *.
    cbn [base64_encode]. cbv zeta.
    rewrite sextets_char by assumption. rewrite sextets_char by assumption.
    cbn [sextets bytes_of_sextets].
    change (unbase64 (61 mod 256)) with (@None N). cbv iota.
    change (61 mod 256 =? 61) with true. cbv iota.
    cbn [bytes_of_sextets]. f_equal. now apply byte_of_to_N.
  - destruct (sextets_of_bytes (byte_bound x) (byte_bound y) (byte_bound Byte.x00))
      as ((Ha & Hb & Hc & _) & E1 & E2 & _).
    change (Byte.to_N Byte.x00 / 64) with 0 in *. rewrite N.add_0_r in *.
    cbn [base64_encode]. cbv zeta.
    rewrite !sextets_char by assumption.
    cbn [sextets bytes_of_sextets].
    change (unbase64 (61 mod 256)) with (@None N). cbv iota.
    change (61 mod 256 =? 61) with true. cbv iota.
    cbn [bytes_of_sextets]. f_equal; [|f_equal]; now apply byte_of_to_N.
  - destruct (sextets_of_bytes (byte_bound x) (byte_bound y) (byte_bound z))
      as ((Ha & Hb & Hc & Hd) & E1 & E2 & E3).
    cbn [base64_encode]. cbv zeta.
    rewrite !sextets_char by assumption.
    cbn [bytes_of_sextets].
    rewrite IH by (simpl in Hn; lia).
    f_equal; [|f_equal; [|f_equal]]; now apply byte_of_to_N.
Qed.

Lemma parseMessageAttributes_refused bfo text entries key value e :
  JSON_parse text = Some (JObject entries) ->
  In (key, value) entries ->
  parseAttribute bfo key value = Throw e ->
  exists cause, parseMessageAttributes bfo text = Throw (ParseFailed cause).
Proof.
  intros Hp Hin He. rewrite parseMessageAttributes_unfold, Hp. cbn [Object_entries].
  destruct (10 <? length entries)%nat; [eauto|].
  destruct (parseEntries bfo entries []) as [result|e'] eqn:Hr; [|simpl; eauto].
  destruct (parseEntries_all _ _ _ Hr _ _ Hin) as [a Ha]. congruence.
Qed.

Lemma kind_of_parse_failure bfo text e :
  parseMessageAttributes bfo text = Throw e -> kind e = Some SchemaError.
Proof.
  intros H. apply parseMessageAttributes_throws in H as [cause ->]. reflexivity.
Qed.

(** C1 (as the code has it). For an entry whose [DataType] is [Binary]:
    without a [BinaryValue] the entry, and with it the whole text, is
    refused with the schema error; with a text [BinaryValue] the entry is
    accepted whatever the text is, and its bytes are those Node's lenient
    base64 decoder reads from it, which for valid base64 are the bytes it
    encodes.  No failure of [parseMessageAttributes] is a decode error. *)
Theorem C1_binary_value :
  forall (bfo : JSValue -> option (list Byte.byte)) (key : JSString)
         (props : Props JSValue),
  lookup (js "DataType") props = Some (JString (js "Binary")) ->
  (lookup (js "BinaryValue") props = None ->
     parseAttribute bfo key (JObject props) = Throw (MissingBinaryValue key)
     /\ forall text entries,
          JSON_parse text = Some (JObject entries) ->
          In (key, JObject props) entries ->
          exists cause,
            parseMessageAttributes bfo text = Throw (ParseFailed cause)
            /\ kind (ParseFailed cause) = Some SchemaError)
  /\ (forall s,
        lookup (js "BinaryValue") props = Some (JString s) ->
        parseAttribute bfo key (JObject props) =
        (text <- match lookup (js "StringValue") props with
                 | Some v => (t <- ToString v ;; Return (Some t))
                 | None => Return None
                 end ;;
         Return {| DataType := js "Binary";
                   StringValue := text;
                   BinaryValue := Some (base64_decode s) |})%result)
  /\ (forall bytes, base64_decode (base64_encode bytes) = bytes)
  /\ (forall text e,
        parseMessageAttributes bfo text = Throw e -> kind e = Some SchemaError).
Proof.
  intros bfo key props Hdt.
  assert (Hty : In (js "Binary") validDataTypes) by (right; right; now left).
  pose proof (parseAttribute_typed bfo key props Hdt Hty) as Heq.
  change (jseq (js "Binary") (js "String") || jseq (js "Binary") (js "Number"))
    with false in Heq.
  change (jseq (js "Binary") (js "Binary")) with true in Heq.
  cbv iota in Heq.
  split; [|split; [|split]].
  - intros Hbv. rewrite Hbv in Heq. split; [exact Heq|].
    intros text entries Hp Hin.
    destruct (@parseMessageAttributes_refused bfo text entries _ _ _ Hp Hin Heq)
      as [cause Hc].
    now exists cause.
  - intros s Hbv. rewrite Hbv in Heq. rewrite Heq. cbn [bind Buffer_from_base64].
    destruct (lookup (js "StringValue") props) as [v|]; [|reflexivity].
    destruct (ToString v); reflexivity.
  - apply base64_decode_encode.
  - intros text e. apply kind_of_parse_failure.
Qed.

(** The entry of the specification: [aGVsbG8=] decodes to [hello]; and
    the whole text with this one entry is accepted. *)
Lemma C1_hello :
  parseAttribute no_array_like (js "a")
    (JObject [(js "DataType", JString (js "Binary"));
              (js "BinaryValue", JString (js "aGVsbG8="))])
  = Return {| DataType := js "Binary"; StringValue := None;
              BinaryValue := Some hello_bytes |}
  /\ parseMessageAttributes no_array_like
       (jsq "{'a':{'DataType':'Binary','BinaryValue':'aGVsbG8='}}")
     = Return [(js "a", {| DataType := js "Binary"; StringValue := None;
                           BinaryValue := Some hello_bytes |})]
  /\ parseMessageAttributes no_array_like (jsq "{'a':{'DataType':'Binary'}}")
     = Throw (ParseFailed (MissingBinaryValue (js "a"))).
Proof.
  split; [|split].
  - exact (proj1 (proj2 (C1_binary_value no_array_like (js "a")
                           [(js "DataType", JString (js "Binary"));
                            (js "BinaryValue", JString (js "aGVsbG8="))] eq_refl))
             (js "aGVsbG8=") eq_refl).
  - vm_compute. reflexivity.
  - vm_compute. reflexivity.
Defined.

(** A [BinaryValue] that is not base64 is accepted: the decoder skips the
    characters outside its alphabet. *)
Lemma C1_counterexample_not_base64 :
  parseMessageAttributes no_array_like
    (jsq "{'a':{'DataType':'Binary','BinaryValue':'not-base64!'}}")
  = Return [(js "a", {| DataType := js "Binary"; StringValue := None;
                        BinaryValue := Some [Byte.x9e; Byte.x8b; Byte.x7e; Byte.x6d;
                                             Byte.xab; Byte.x1e; Byte.xeb] |})].
Proof. vm_compute. reflexivity. Qed.

(** C2 (as the code has it). Text that is not well-formed JSON, and the
    text [null], are refused with the schema error.  Other text that is
    not an object is not refused for that: a number or a boolean gives
    the empty attribute map, and a string or an array is read as the
    object of its indices.  So the empty string gives the empty map; a
    string of more than ten code units is refused for their number; a
    shorter one is refused for its first code unit, the entry [0], which
    has no [DataType].  An array of more than ten elements is refused
    for their number; otherwise its elements are taken as the entries
    [0], [1], ... in order. *)
Theorem C2_text_that_is_not_an_object :
  forall (bfo : JSValue -> option (list Byte.byte)) (text : JSString),
  match JSON_parse text with
  | None =>
      parseMessageAttributes bfo text = Throw (ParseFailed (Engine (JSONSyntaxError text)))
  | Some JNull =>
      parseMessageAttributes bfo text = Throw (ParseFailed (Engine NullToObject))
  | Some (JBool _) | Some (JNumber _) => parseMessageAttributes bfo text = Return []
  | Some (JString s) =>
      parseMessageAttributes bfo text =
      match s with
      | [] => Return []
      | _ :: _ =>
          if (10 <? length s)%nat
          then Throw (ParseFailed (TooManyAttributes (length s)))
          else Throw (ParseFailed (MissingDataType (js "0")))
      end
  | Some (JArray elems) =>
      parseMessageAttributes bfo text =
      if (10 <? length elems)%nat
      then Throw (ParseFailed (TooManyAttributes (length elems)))
      else try_catch (parseEntries bfo (combine (index_keys (length elems)) elems) [])
             (fun e => Throw (ParseFailed e))
  | Some (JObject _) => True
  end
  /\ (forall e, parseMessageAttributes bfo text = Throw e -> kind e = Some SchemaError).
Proof.
  intros bfo text. split; [|intros e; apply kind_of_parse_failure].
  rewrite parseMessageAttributes_unfold.
  destruct (JSON_parse text) as [[| | |s|elems|props]|]; try reflexivity; try exact I.
  - destruct s as [|c s]; [reflexivity|].
    cbn [Object_entries].
    rewrite length_combine. unfold index_keys at 1 2.
    rewrite !length_map, length_seq, Nat.min_id.
    destruct (10 <? _)%nat; [reflexivity|].
    cbn [length index_keys seq map combine parseEntries].
    change (parseAttribute bfo (decimal (N.of_nat 0)) (JString [c]))
      with (@Throw MessageAttributeValue (MissingDataType (decimal (N.of_nat 0)))).
    reflexivity.
  - cbn [Object_entries].
    rewrite length_combine. unfold index_keys. rewrite length_map, length_seq, Nat.min_id.
    reflexivity.
Qed.

(** A number is accepted and gives no attribute. *)
Lemma C2_counterexample_number :
  parseMessageAttributes no_array_like (js "5") = Return [].
Proof. vm_compute. reflexivity. Qed.

Lemma C2_examples :
  parseMessageAttributes no_array_like (js "{")
  = Throw (ParseFailed (Engine (JSONSyntaxError (js "{"))))
  /\ parseMessageAttributes no_array_like (js "null")
     = Throw (ParseFailed (Engine NullToObject))
  /\ parseMessageAttributes no_array_like (js "true") = Return []
  /\ parseMessageAttributes no_array_like (js "[]") = Return []
  /\ parseMessageAttributes no_array_like (jsq "'abc'")
     = Throw (ParseFailed (MissingDataType (js "0")))
  /\ parseMessageAttributes no_array_like (jsq "'abcdefghijk'")
     = Throw (ParseFailed (TooManyAttributes 11)).
Proof.
  split; [|split; [|split; [|split; [|split]]]].
  - exact (proj1 (C2_text_that_is_not_an_object no_array_like (js "{"))).
  - exact (proj1 (C2_text_that_is_not_an_object no_array_like (js "null"))).
  - exact (proj1 (C2_text_that_is_not_an_object no_array_like (js "true"))).
  - exact (proj1 (C2_text_that_is_not_an_object no_array_like (js "[]"))).
  - exact (proj1 (C2_text_that_is_not_an_object no_array_like (jsq "'abc'"))).
  - exact (proj1 (C2_text_that_is_not_an_object no_array_like (jsq "'abcdefghijk'"))).
Defined.

(** C5 (as the code has it). Every attribute [parseMessageAttributes]
    produces has one of the three types and carries the payload of its
    type: a text for [String] and [Number], bytes for [Binary].  It was
    made from an entry of its key, and it carries a text exactly when
    that entry has a [StringValue] and bytes exactly when it has a
    [BinaryValue]: both, when the entry has both. *)
Theorem C5_payload_of_the_type :
  forall (bfo : JSValue -> option (list Byte.byte)) (text : JSString)
         (attrs : Props MessageAttributeValue) (key : JSString)
         (a : MessageAttributeValue),
  parseMessageAttributes bfo text = Return attrs ->
  In (key, a) attrs ->
  (DataType a = js "String" \/ DataType a = js "Number" \/ DataType a = js "Binary")
  /\ (DataType a = js "String" \/ DataType a = js "Number" ->
      exists s, StringValue a = Some s)
  /\ (DataType a = js "Binary" -> exists b, BinaryValue a = Some b)
  /\ exists parsed entries props,
       JSON_parse text = Some parsed
       /\ Object_entries parsed = Return entries
       /\ In (key, JObject props) entries
       /\ (StringValue a = None <-> lookup (js "StringValue") props = None)
       /\ (BinaryValue a = None <-> lookup (js "BinaryValue") props = None).
Proof.
  intros bfo text attrs key a Hp Hin.
  rewrite parseMessageAttributes_unfold in Hp.
  destruct (JSON_parse text) as [parsed|] eqn:Hj; [|discriminate].
  destruct (Object_entries parsed) as [entries|] eqn:Ho; [|discriminate].
  destruct (10 <? length entries)%nat; [discriminate|].
  destruct (parseEntries bfo entries []) as [result|] eqn:Hr; [|discriminate].
  injection Hp as ->.
  destruct (parseEntries_sound _ _ _ Hr _ _ Hin) as [[] | (value & Hv & Ha)].
  destruct (parseAttribute_payload _ _ _ Ha)
    as (props & -> & Hdt & Hty & Hsv & Hbv & Hs & Hb).
  split; [now apply valid_type_cases|].
  split; [|split].
  - intros Ht. specialize (Hs Ht).
    destruct (lookup (js "StringValue") props); [|congruence].
    destruct Hsv as (s & _ & ->). eauto.
  - intros Ht. specialize (Hb Ht).
    destruct (lookup (js "BinaryValue") props); [|congruence].
    destruct Hbv as (b & _ & ->). eauto.
  - exists parsed, entries, props.
    split; [reflexivity|]. split; [assumption|]. split; [assumption|].
    split.
    + destruct (lookup (js "StringValue") props).
      * destruct Hsv as (s & _ & ->). split; discriminate.
      * now split.
    + destruct (lookup (js "BinaryValue") props).
      * destruct Hbv as (b & _ & ->). split; discriminate.
      * now split.
Qed.

Definition both_text : JSString :=
  jsq "{'a':{'DataType':'Binary','BinaryValue':'aGVsbG8=','StringValue':'x'}}".

Definition both_attribute : MessageAttributeValue :=
  {| DataType := js "Binary";
     StringValue := Some (js "x");
     BinaryValue := Some hello_bytes |}.

(** An attribute that carries a text payload and a binary payload. *)
Lemma C5_counterexample_both_payloads :
  parseMessageAttributes no_array_like both_text = Return [(js "a", both_attribute)]
  /\ StringValue both_attribute = Some (js "x")
  /\ BinaryValue both_attribute = Some hello_bytes.
Proof. split; [vm_compute; reflexivity | split; reflexivity]. Qed.

(** The amended statement at that attribute: it has the bytes its type
    requires. *)
Lemma C5_witness :
  exists b, BinaryValue both_attribute = Some b.
Proof.
  assert (Hp : parseMessageAttributes no_array_like both_text
               = Return [(js "a", both_attribute)]) by (vm_compute; reflexivity).
  exact (proj1 (proj2 (proj2 (@C5_payload_of_the_type no_array_like both_text _
                                (js "a") both_attribute Hp (or_introl eq_refl))))
           eq_refl).
Defined.

(** ** The queue URL *)

(** C3 (as the code has it). [validateQueueUrl] accepts exactly the URLs
    [https://sqs.<region>.amazonaws.com[.cn]/<account>/<name>] with a
    region of lowercase letters, digits and hyphens, an account of
    digits, and a name of one or more characters other than line
    terminators (a slash is allowed); any other URL is the format
    error. *)
Theorem C3_validateQueueUrl_shape : forall url : JSString,
  (validateQueueUrl url = Return tt <-> url_shape dot url)
  /\ (validateQueueUrl url = Throw (InvalidQueueUrl url) <-> ~ url_shape dot url)
  /\ kind (InvalidQueueUrl url) = Some FormatError.
Proof.
  intros url. unfold validateQueueUrl. rewrite urlPattern_unfold.
  pose proof (queue_url_pattern_spec dot url) as Hs.
  destruct (regex_test (queue_url_pattern dot) url); cbn [negb].
  - split; [|split]; [split; [intros _; now apply Hs | reflexivity] | | reflexivity].
    split; [discriminate|]. intros Hn. exfalso. apply Hn. now apply Hs.
  - split; [|split]; [| | reflexivity].
    + split; [discriminate|]. intros H. apply Hs in H. discriminate.
    + split; [|reflexivity]. intros _ H. apply Hs in H. discriminate.
Qed.

(** A queue name with a slash is accepted, though the URL has not the
    shape the specification gives. *)
Lemma C3_counterexample_slash :
  validateQueueUrl (js "https://sqs.us-east-1.amazonaws.com/123456789012/a/b") = Return tt
  /\ ~ spec_url_shape (js "https://sqs.us-east-1.amazonaws.com/123456789012/a/b").
Proof.
  split; [vm_compute; reflexivity|].
  unfold spec_url_shape. intros H. apply queue_url_pattern_spec in H.
  vm_compute in H. discriminate.
Qed.

(** The URLs of the specification's examples. *)
Lemma C3_examples :
  validateQueueUrl standard_url = Return tt
  /\ validateQueueUrl (js "https://sqs.cn-north-1.amazonaws.com.cn/123456789012/q.fifo")
     = Return tt
  /\ validateQueueUrl (js "http://sqs.us-east-1.amazonaws.com/123456789012/my-queue")
     = Throw (InvalidQueueUrl (js "http://sqs.us-east-1.amazonaws.com/123456789012/my-queue"))
  /\ validateQueueUrl (js "https://sqs.us-east-1.amazonaws.com/my-queue")
     = Throw (InvalidQueueUrl (js "https://sqs.us-east-1.amazonaws.com/my-queue"))
  /\ validateQueueUrl (js "https://sqs.us-east-1.amazonaws.com/123456789012/")
     = Throw (InvalidQueueUrl (js "https://sqs.us-east-1.amazonaws.com/123456789012/")).
Proof.
  assert (Hn : forall url, regex_test (queue_url_pattern dot) url = false ->
                           validateQueueUrl url = Throw (InvalidQueueUrl url)).
  { intros url H. apply (proj1 (proj2 (C3_validateQueueUrl_shape url))).
    intros Hs. apply queue_url_pattern_spec in Hs. congruence. }
  assert (Hy : forall url, regex_test (queue_url_pattern dot) url = true ->
                           validateQueueUrl url = Return tt).
  { intros url H. apply (proj1 (C3_validateQueueUrl_shape url)).
    now apply queue_url_pattern_spec. }
  split; [|split; [|split; [|split]]].
  - apply Hy. vm_compute. reflexivity.
  - apply Hy. vm_compute. reflexivity.
  - apply Hn. vm_compute. reflexivity.
  - apply Hn. vm_compute. reflexivity.
  - apply Hn. vm_compute. reflexivity.
Defined.

(** ** The delay text of [run] *)

Lemma abind_lift_Return {A B} (a : A) (k : A -> Action B) :
  abind (lift (Return a)) k = k a.
Proof. unfold abind, lift. now destruct (k a). Qed.

Lemma In_events_emit_bind {B} (e : Event) (k : unit -> Action B) ev :
  In ev (events (k tt)) -> In ev (events (abind (emit e) k)).
Proof. intros H. rewrite events_abind. right. exact H. Qed.

Lemma In_events_bind_left {A B} (m : Action A) (k : A -> Action B) ev :
  In ev (events m) -> In ev (events (abind m k)).
Proof. intros H. rewrite events_abind, in_app_iff. now left. Qed.

Definition config_of_inputs (inputs : ActionInputs) (delay : Z) : MessageConfig :=
  {| queueUrl := trim (in_queue_url inputs);
     messageBody := trim (in_message_body inputs);
     messageAttributes := orUndefined (trim (in_message_attributes inputs));
     delaySeconds := Some delay;
     messageGroupId := orUndefined (trim (in_message_group_id inputs));
     messageDeduplicationId := orUndefined (trim (in_message_deduplication_id inputs));
     systemAttributes := orUndefined (trim (in_system_attributes inputs)) |}.

Definition delay_text (inputs : ActionInputs) : JSString :=
  orElse (trim (in_delay_seconds inputs)) (js "0").

(** [run] up to the delay: with the two required inputs supplied, two
    log lines, then the delay text decides. *)
Lemma run_body_delay em bfo inputs client :
  nonempty (in_queue_url inputs) = true ->
  nonempty (in_message_body inputs) = true ->
  exists k,
    run_body em bfo inputs client =
    (emit (LogInfo (js "AWS SQS Send Message")) ;;
     emit (LogInfo (js "Queue URL: " ++ trim (in_queue_url inputs))) ;;
     match parseInt (delay_text inputs) with
     | None => raise (InvalidDelay (delay_text inputs))
     | Some delay =>
         result <- sendMessage em bfo client (config_of_inputs inputs delay) ;;
         k result
     end)%action.
Proof.
  intros Hq Hb. eexists. unfold run_body, getInput. rewrite Hq, Hb.
  cbn [andb negb]. rewrite !abind_lift_Return. cbv zeta. reflexivity.
Qed.

Definition inputs_with_delay (d : JSString) : ActionInputs :=
  {| in_queue_url := standard_url;
     in_message_body := js "hi";
     in_message_attributes := [];
     in_delay_seconds := d;
     in_message_group_id := [];
     in_message_deduplication_id := [];
     in_system_attributes := [] |}.

(** C4, on the code. A delay text in which [parseInt] finds no number
    ([abc]) ends the run with the format error before anything is
    submitted.  But [parseInt] reads the digits a text starts with:
    [12abc] is taken as 12, and the message is submitted with a delay of
    12 seconds. *)
Theorem C4_delay_text :
  forall (em : EngineError -> JSString) (bfo : JSValue -> option (list Byte.byte))
         (client : SQSClient),
  (forall inputs,
     nonempty (in_queue_url inputs) = true ->
     nonempty (in_message_body inputs) = true ->
     parseInt (delay_text inputs) = None ->
     outcome (run_body em bfo inputs client) = Throw (InvalidDelay (delay_text inputs))
     /\ kind (InvalidDelay (delay_text inputs)) = Some FormatError
     /\ quiet (run em bfo inputs client))
  /\ parseInt (delay_text (inputs_with_delay (js "abc"))) = None
  /\ parseInt (delay_text (inputs_with_delay (js "12abc"))) = Some 12%Z
  /\ In (Submit (request_of (delayed_config 12) None None))
       (events (run em bfo (inputs_with_delay (js "12abc")) client)).
Proof.
  intros em bfo client. split; [|split; [reflexivity|split; [reflexivity|]]].
  - intros inputs Hq Hb Hd.
    destruct (run_body_delay em bfo inputs client Hq Hb) as [k Hk].
    rewrite Hd in Hk.
    split; [|split; [reflexivity|]].
    + rewrite Hk. now rewrite !outcome_emit_bind.
    + intros input. unfold run.
      rewrite submits_acatch by (intros e; apply quiet_emit; reflexivity).
      rewrite Hk. revert input.
      match goal with |- forall i, ~ In (Submit i) (events ?m) => change (quiet m) end.
      auto 10 with quiet.
  - unfold run. rewrite events_acatch, in_app_iff. left.
    destruct (run_body_delay em bfo (inputs_with_delay (js "12abc")) client eq_refl eq_refl)
      as [k Hk].
    rewrite Hk.
    change (parseInt (delay_text (inputs_with_delay (js "12abc")))) with (Some 12%Z).
    cbv iota beta.
    do 2 apply In_events_emit_bind. apply In_events_bind_left.
    apply sendMessage_submits. rewrite buildRequest_outcome.
    vm_compute. reflexivity.
Qed.

(** * Further properties *)

(** ** The attribute map as an object *)

Lemma jseq_false a b : a <> b -> jseq a b = false.
Proof.
  intros H. destruct (jseq a b) eqn:E; [|reflexivity].
  apply jseq_spec in E. contradiction.
Qed.

Lemma jseq_same a : jseq a a = true.
Proof. now apply jseq_spec. Qed.

Lemma lookup_replace_same {V} (k : JSString) (v : V) ps :
  lookup k ps <> None -> lookup k (replace_prop k v ps) = Some v.
Proof.
  induction ps as [|[k0 v0] ps IH]; simpl; [congruence|].
  destruct (jseq k k0) eqn:E; simpl; rewrite E; [reflexivity | exact IH].
Qed.

Lemma lookup_replace_other {V} (k k' : JSString) (v : V) ps :
  k' <> k -> lookup k' (replace_prop k v ps) = lookup k' ps.
Proof.
  intros Hne. induction ps as [|[k0 v0] ps IH]; simpl; [reflexivity|].
  destruct (jseq k k0) eqn:E; simpl.
  - apply jseq_spec in E. subst k0. now rewrite (jseq_false Hne).
  - destruct (jseq k' k0); [reflexivity | exact IH].
Qed.

Lemma lookup_insert_same {V} i (k : JSString) (v : V) ps :
  lookup k ps = None -> lookup k (insert_index i k v ps) = Some v.
Proof.
  induction ps as [|[k0 v0] ps IH]; simpl; [now rewrite jseq_same|].
  destruct (jseq k k0) eqn:E; [discriminate|]. intros H.
  destruct (array_index k0) as [j|]; [destruct (j <? i)|]; simpl;
    rewrite ?E, ?jseq_same; auto.
Qed.

Lemma lookup_insert_other {V} i (k k' : JSString) (v : V) ps :
  k' <> k -> lookup k' (insert_index i k v ps) = lookup k' ps.
Proof.
  intros Hne. induction ps as [|[k0 v0] ps IH]; simpl.
  - now rewrite (jseq_false Hne).
  - destruct (array_index k0) as [j|]; [destruct (j <? i)|]; simpl;
      rewrite ?(jseq_false Hne); try reflexivity.
    destruct (jseq k' k0); [reflexivity | exact IH].
Qed.

Lemma lookup_app_same {V} (k : JSString) (v : V) ps :
  lookup k ps = None -> lookup k (ps ++ [(k, v)]) = Some v.
Proof.
  induction ps as [|[k0 v0] ps IH]; simpl; [now rewrite jseq_same|].
  destruct (jseq k k0); [discriminate | exact IH].
Qed.

Lemma lookup_app_other {V} (k k' : JSString) (v : V) ps :
  k' <> k -> lookup k' (ps ++ [(k, v)]) = lookup k' ps.
Proof.
  intros Hne. induction ps as [|[k0 v0] ps IH]; simpl.
  - now rewrite (jseq_false Hne).
  - destruct (jseq k' k0); [reflexivity | exact IH].
Qed.

(** Reading back what [o[key] = v] wrote, and the other keys. *)
Lemma lookup_assign_same {V} (k : JSString) (v : V) ps :
  k <> js "__proto__" -> lookup k (assign k v ps) = Some v.
Proof.
  intros Hk. unfold assign, define_prop. rewrite (jseq_false Hk).
  destruct (lookup k ps) eqn:E.
  - apply lookup_replace_same. congruence.
  - destruct (array_index k); [now apply lookup_insert_same | now apply lookup_app_same].
Qed.

Lemma lookup_assign_other {V} (k k' : JSString) (v : V) ps :
  k' <> k -> lookup k' (assign k v ps) = lookup k' ps.
Proof.
  intros Hne. unfold assign, define_prop.
  destruct (jseq k (js "__proto__")); [reflexivity|].
  destruct (lookup k ps).
  - now apply lookup_replace_other.
  - destruct (array_index k); [now apply lookup_insert_other | now apply lookup_app_other].
Qed.

Lemma lookup_assign_proto {V} (k : JSString) (v : V) ps :
  lookup (js "__proto__") (assign k v ps) = lookup (js "__proto__") ps.
Proof.
  unfold assign. destruct (jseq k (js "__proto__")) eqn:E; [reflexivity|].
  fold (assign k v ps). 
  assert (Hne : js "__proto__" <> k).
  { intros <-. now rewrite jseq_same in E. }
  pose proof (lookup_assign_other v ps Hne) as H. unfold assign in H.
  now rewrite E in H.
Qed.

Lemma length_replace_prop {V} (k : JSString) (v : V) ps :
  length (replace_prop k v ps) = length ps.
Proof.
  induction ps as [|[k0 v0] ps IH]; simpl; [reflexivity|].
  destruct (jseq k k0); simpl; congruence.
Qed.

Lemma length_insert_index {V} i (k : JSString) (v : V) ps :
  length (insert_index i k v ps) = S (length ps).
Proof.
  induction ps as [|[k0 v0] ps IH]; simpl; [reflexivity|].
  destruct (array_index k0) as [j|]; [destruct (j <? i)|]; simpl; congruence.
Qed.

Lemma length_assign {V} (k : JSString) (v : V) ps :
  (length (assign k v ps) <= S (length ps))%nat.
Proof.
  unfold assign, define_prop. destruct (jseq k (js "__proto__")); [lia|].
  destruct (lookup k ps).
  - rewrite length_replace_prop. lia.
  - destruct (array_index k).
    + rewrite length_insert_index. lia.
    + rewrite length_app. simpl. lia.
Qed.

(** ** More on [parseMessageAttributes] *)

Lemma parseEntries_length bfo entries : forall acc result,
  parseEntries bfo entries acc = Return result ->
  (length result <= length acc + length entries)%nat.
Proof.
  induction entries as [|[k v] entries IH]; intros acc result H; simpl in H.
  - injection H as <-. simpl. lia.
  - destruct (parseAttribute bfo k v) as [a|]; [|discriminate]. cbn [bind] in H.
    apply IH in H. pose proof (length_assign k a acc). simpl. lia.
Qed.

Lemma parseEntries_proto bfo entries : forall acc result,
  parseEntries bfo entries acc = Return result ->
  lookup (js "__proto__") result = lookup (js "__proto__") acc.
Proof.
  induction entries as [|[k v] entries IH]; intros acc result H; simpl in H.
  - now injection H as <-.
  - destruct (parseAttribute bfo k v) as [a|]; [|discriminate]. cbn [bind] in H.
    apply IH in H. now rewrite H, lookup_assign_proto.
Qed.

Lemma parseEntries_frame bfo entries : forall acc result key,
  parseEntries bfo entries acc = Return result ->
  ~ In key (map fst entries) ->
  lookup key result = lookup key acc.
Proof.
  induction entries as [|[k v] entries IH]; intros acc result key H Hn; simpl in H.
  - now injection H as <-.
  - destruct (parseAttribute bfo k v) as [a|]; [|discriminate]. cbn [bind] in H.
    simpl in Hn. rewrite (IH _ _ _ H) by tauto.
    apply lookup_assign_other. intros ->. tauto.
Qed.

Lemma parseEntries_accepted bfo entries :
  (forall key value, In (key, value) entries ->
     exists a, parseAttribute bfo key value = Return a) ->
  forall acc, exists result, parseEntries bfo entries acc = Return result.
Proof.
  induction entries as [|[k v] entries IH]; intros Hall acc; simpl; [eauto|].
  destruct (Hall k v (or_introl eq_refl)) as [a ->]. cbn [bind].
  apply IH. intros key value Hin. apply Hall. now right.
Qed.


(** X1. More than ten keys are refused before any entry is looked at; up to
    ten entries that are each accepted give a map of no more entries. *)
Theorem attribute_count_limit :
  forall (bfo : JSValue -> option (list Byte.byte)) (text : JSString)
         (entries : Props JSValue),
  JSON_parse text = Some (JObject entries) ->
  ((10 < length entries)%nat ->
   parseMessageAttributes bfo text
   = Throw (ParseFailed (TooManyAttributes (length entries))))
  /\ ((length entries <= 10)%nat ->
      (forall key value, In (key, value) entries ->
         exists a, parseAttribute bfo key value = Return a) ->
      exists attrs,
        parseMessageAttributes bfo text = Return attrs
        /\ (length attrs <= length entries)%nat).
Proof.
  intros bfo text entries Hp. rewrite parseMessageAttributes_unfold, Hp.
  cbn [Object_entries]. split.
  - intros H. apply Nat.ltb_lt in H. now rewrite H.
  - intros H Hall. apply Nat.ltb_ge in H. rewrite H.
    destruct (parseEntries_accepted bfo entries Hall []) as [result Hr].
    rewrite Hr. exists result. split; [reflexivity|].
    apply parseEntries_length in Hr. simpl in Hr. exact Hr.
Qed.

Definition text_entry (n : JSString) : JSString :=
  dquote ++ n ++ dquote ++ jsq ":{'DataType':'String','StringValue':'v'}".

Definition object_text (names : list JSString) : JSString :=
  js "{" ++ join (js ",") (map text_entry names) ++ js "}".

Definition eleven_names : list JSString :=
  map js ["k1"; "k2"; "k3"; "k4"; "k5"; "k6"; "k7"; "k8"; "k9"; "k10"; "k11"]%string.

Definition ten_names : list JSString := firstn 10 eleven_names.

Definition entries_named (names : list JSString) : Props JSValue :=
  map (fun n => (n, JObject [(js "DataType", JString (js "String"));
                             (js "StringValue", JString (js "v"))])) names.

(** Eleven valid entries are refused, ten are accepted. *)
Lemma attribute_count_limit_witness :
  parseMessageAttributes no_array_like (object_text eleven_names)
  = Throw (ParseFailed (TooManyAttributes 11))
  /\ exists attrs,
       parseMessageAttributes no_array_like (object_text ten_names) = Return attrs
       /\ (length attrs <= 10)%nat.
Proof.
  assert (H11 : JSON_parse (object_text eleven_names) = Some (JObject (entries_named eleven_names)))
    by (vm_compute; reflexivity).
  assert (H10 : JSON_parse (object_text ten_names) = Some (JObject (entries_named ten_names)))
    by (vm_compute; reflexivity).
  split.
  - apply (proj1 (attribute_count_limit no_array_like _ H11)). simpl. lia.
  - apply (proj2 (attribute_count_limit no_array_like _ H10)); [simpl; lia|].
    intros key value Hin.
    repeat (destruct Hin as [Hin|Hin]; [injection Hin as <- <-; eexists; reflexivity|]).
    destruct Hin.
Defined.

(** X2. The map returned has at most ten attributes, and none is named
    [__proto__]: an entry of that name is dropped. *)
Theorem attribute_map_bounds :
  forall (bfo : JSValue -> option (list Byte.byte)) (text : JSString)
         (attrs : Props MessageAttributeValue),
  parseMessageAttributes bfo text = Return attrs ->
  (length attrs <= 10)%nat /\ lookup (js "__proto__") attrs = None.
Proof.
  intros bfo text attrs H. rewrite parseMessageAttributes_unfold in H.
  destruct (JSON_parse text) as [parsed|]; [|discriminate].
  destruct (Object_entries parsed) as [entries|]; [|discriminate].
  destruct (10 <? length entries)%nat eqn:Hl; [discriminate|].
  apply Nat.ltb_ge in Hl.
  destruct (parseEntries bfo entries []) as [result|] eqn:Hr; [|discriminate].
  injection H as <-. split.
  - apply parseEntries_length in Hr. simpl in Hr. lia.
  - now rewrite (parseEntries_proto _ _ _ Hr).
Qed.

Definition proto_text : JSString :=
  jsq "{'__proto__':{'DataType':'String','StringValue':'x'},'b':{'DataType':'String','StringValue':'y'}}".

Lemma attribute_map_bounds_witness :
  parseMessageAttributes no_array_like proto_text
  = Return [(js "b", {| DataType := js "String"; StringValue := Some (js "y");
                        BinaryValue := None |})]
  /\ lookup (js "__proto__")
       [(js "b", {| DataType := js "String"; StringValue := Some (js "y");
                    BinaryValue := None |})] = None.
Proof.
  assert (H : parseMessageAttributes no_array_like proto_text
              = Return [(js "b", {| DataType := js "String"; StringValue := Some (js "y");
                                    BinaryValue := None |})])
    by (vm_compute; reflexivity).
  split; [exact H|].
  exact (proj2 (attribute_map_bounds no_array_like proto_text H)).
Defined.




(** *** The keys of a parsed object are distinct *)

Lemma lookup_None_keys {V} (k : JSString) (ps : Props V) :
  lookup k ps = None <-> ~ In k (map fst ps).
Proof.
  induction ps as [|[k0 v0] ps IH]; simpl; [tauto|].
  destruct (jseq k k0) eqn:E.
  - apply jseq_spec in E. subst. split; [discriminate | intros H; exfalso; auto].
  - rewrite IH. split; [|tauto]. intros H [->|H']; [|tauto].
    now rewrite jseq_same in E.
Qed.

Lemma keys_replace_prop {V} (k : JSString) (v : V) ps :
  map fst (replace_prop k v ps) = map fst ps.
Proof.
  induction ps as [|[k0 v0] ps IH]; simpl; [reflexivity|].
  destruct (jseq k k0); simpl; congruence.
Qed.

Lemma keys_insert_index {V} i (k : JSString) (v : V) ps k' :
  In k' (map fst (insert_index i k v ps)) -> k' = k \/ In k' (map fst ps).
Proof.
  induction ps as [|[k0 v0] ps IH]; simpl; [intuition|].
  destruct (array_index k0) as [j|]; [destruct (j <? i)|]; simpl; intuition.
Qed.

Lemma NoDup_insert_index {V} i (k : JSString) (v : V) ps :
  ~ In k (map fst ps) -> NoDup (map fst ps) -> NoDup (map fst (insert_index i k v ps)).
Proof.
  induction ps as [|[k0 v0] ps IH]; simpl; intros Hk Hn.
  - constructor; [tauto | constructor].
  - assert (Hc : NoDup (k :: k0 :: map fst ps)) by (constructor; [simpl; tauto | exact Hn]).
    inversion Hn as [|? ? Hk0 Hps]; subst.
    destruct (array_index k0) as [j|]; [destruct (j <? i)|]; simpl; try exact Hc.
    constructor; [|apply IH; tauto].
    intros Hin. apply keys_insert_index in Hin as [->|Hin]; tauto.
Qed.

Lemma NoDup_define_prop {V} (k : JSString) (v : V) ps :
  NoDup (map fst ps) -> NoDup (map fst (define_prop k v ps)).
Proof.
  intros Hn. unfold define_prop. destruct (lookup k ps) eqn:E.
  - now rewrite keys_replace_prop.
  - apply lookup_None_keys in E. destruct (array_index k).
    + now apply NoDup_insert_index.
    + rewrite map_app. simpl. apply NoDup_app; [exact Hn | constructor; [tauto|constructor] |].
      intros x Hx [<-|[]]. tauto.
Qed.

Definition well_keyed (v : JSValue) : Prop :=
  match v with
  | JObject props => NoDup (map fst props)
  | _ => True
  end.

Definition phase_keyed (ph : Phase) : Prop :=
  match ph with
  | PKey props | PColon props _ => NoDup (map fst props)
  | PDone v => well_keyed v
  | _ => True
  end.

Definition frame_keyed (f : Frame) : Prop :=
  match f with
  | FObj props _ => NoDup (map fst props)
  | FArr _ => True
  end.

Lemma scalar_token_keyed t v : scalar_token t = Some v -> well_keyed v.
Proof. destruct t; simpl; intros H; inversion H; exact I. Qed.

Lemma parse_tokens_keyed ts : forall ph st v,
  phase_keyed ph -> Forall frame_keyed st ->
  parse_tokens ph st ts = Some v -> well_keyed v.
Proof.
  induction ts as [|t ts IH]; intros ph st v Hph Hst H; simpl in H.
  - destruct ph; try discriminate. destruct st; [|discriminate].
    injection H as <-. exact Hph.
  - destruct ph as [| | |props|props k|w].
    + destruct t; simpl in H; try discriminate;
        try (eapply IH; [| |exact H]; simpl; auto; fail).
    + destruct t; simpl in H; try discriminate;
        try (eapply IH; [| |exact H]; simpl; auto; fail).
      destruct st as [|[[|]|] st]; try discriminate.
      eapply IH; [| |exact H]; simpl; auto. now inversion Hst.
    + destruct t; try discriminate; (eapply IH; [| |exact H]; simpl; auto; constructor).
    + destruct t; try discriminate. eapply IH; [| |exact H]; simpl; auto.
    + destruct t; try discriminate. eapply IH; [| |exact H]; simpl; auto.
    + destruct t; try discriminate; destruct st as [|[done|props k] st]; try discriminate;
        inversion Hst; subst;
        (eapply IH; [| |exact H]; simpl; auto using NoDup_define_prop).
Qed.

(** [JSON.parse] gives an object one property for each key. *)
Lemma JSON_parse_distinct_keys text entries :
  JSON_parse text = Some (JObject entries) -> NoDup (map fst entries).
Proof.
  unfold JSON_parse. destruct (lex LIdle text) as [ts|]; [|discriminate].
  intros H. eapply parse_tokens_keyed in H; simpl; auto.
Qed.

Lemma parseEntries_kept bfo entries : forall acc result,
  parseEntries bfo entries acc = Return result ->
  NoDup (map fst entries) ->
  forall key value,
    In (key, value) entries -> key <> js "__proto__" ->
    exists a, parseAttribute bfo key value = Return a /\ lookup key result = Some a.
Proof.
  induction entries as [|[k v] entries IH]; intros acc result H Hn key value Hin Hk.
  - destruct Hin.
  - simpl in H. destruct (parseAttribute bfo k v) as [a|] eqn:Ea; [|discriminate].
    cbn [bind] in H. simpl in Hn. inversion Hn as [|? ? Hfresh Hrest]; subst.
    destruct Hin as [Hin|Hin].
    + injection Hin as <- <-. exists a. split; [exact Ea|].
      rewrite (parseEntries_frame _ _ _ _ H Hfresh). now apply lookup_assign_same.
    + eapply IH; eassumption.
Qed.

(** X4. Every entry of the parsed object, the key [__proto__] apart, is in
    the result under its key, as the attribute it was accepted as. *)
Theorem accepted_entries_are_kept :
  forall (bfo : JSValue -> option (list Byte.byte)) (text : JSString)
         (entries : Props JSValue) (attrs : Props MessageAttributeValue),
  JSON_parse text = Some (JObject entries) ->
  parseMessageAttributes bfo text = Return attrs ->
  forall key value,
    In (key, value) entries -> key <> js "__proto__" ->
    exists a, parseAttribute bfo key value = Return a /\ lookup key attrs = Some a.
Proof.
  intros bfo text entries attrs Hp H key value Hin Hk.
  pose proof (JSON_parse_distinct_keys text Hp) as Hn.
  rewrite parseMessageAttributes_unfold, Hp in H. cbn [Object_entries] in H.
  destruct (10 <? length entries)%nat; [discriminate|].
  destruct (parseEntries bfo entries []) as [result|] eqn:Hr; [|discriminate].
  injection H as <-. eapply parseEntries_kept; eassumption.
Qed.

Definition two_entries_text : JSString :=
  jsq "{'Priority':{'DataType':'Number','StringValue':'5'},'Author':{'DataType':'String','StringValue':'J'}}".

Lemma accepted_entries_witness :
  exists a,
    parseAttribute no_array_like (js "Author")
      (JObject [(js "DataType", JString (js "String"));
                (js "StringValue", JString (js "J"))]) = Return a
    /\ lookup (js "Author")
         [(js "Priority", {| DataType := js "Number"; StringValue := Some (js "5");
                             BinaryValue := None |});
          (js "Author", {| DataType := js "String"; StringValue := Some (js "J");
                           BinaryValue := None |})] = Some a.
Proof.
  eapply (@accepted_entries_are_kept no_array_like two_entries_text
            [(js "Priority", JObject [(js "DataType", JString (js "Number"));
                                      (js "StringValue", JString (js "5"))]);
             (js "Author", JObject [(js "DataType", JString (js "String"));
                                    (js "StringValue", JString (js "J"))])]).
  - vm_compute. reflexivity.
  - vm_compute. reflexivity.
  - right. left. reflexivity.
  - discriminate.
Defined.

(** X5. A value that is not an object, or has no [DataType], is reported as
    a missing [DataType] ([null] as the engine's TypeError); a type text
    that is not exactly [String], [Number] or [Binary] is reported as
    invalid, with the text and the key. *)
Theorem data_type_is_checked :
  forall (bfo : JSValue -> option (list Byte.byte)) (key : JSString) (value : JSValue),
  match value with
  | JNull => parseAttribute bfo key value = Throw (Engine (ReadOfNull (js "DataType")))
  | JBool _ | JNumber _ | JString _ | JArray _ =>
      parseAttribute bfo key value = Throw (MissingDataType key)
  | JObject props =>
      (lookup (js "DataType") props = None ->
       parseAttribute bfo key value = Throw (MissingDataType key))
      /\ (forall ty,
            lookup (js "DataType") props = Some (JString ty) ->
            ~ In ty validDataTypes ->
            parseAttribute bfo key value
            = Throw (if nonempty ty then InvalidDataType ty key else MissingDataType key))
  end.
Proof.
  intros bfo key [| | | | |props]; try reflexivity.
  unfold parseAttribute. cbn [member bind]. split.
  - intros ->. reflexivity.
  - intros ty -> Hty. cbn [ToBoolean].
    destruct (nonempty ty); [|reflexivity]. cbn [negb].
    assert (Hin : includes validDataTypes (Some (JString ty)) = false).
    { unfold includes. destruct (existsb (jseq ty) validDataTypes) eqn:E; [|reflexivity].
      apply existsb_exists in E as (x & Hx & Hj). apply jseq_spec in Hj. now subst. }
    rewrite Hin. reflexivity.
Qed.

(** The type is case-sensitive; a number is no entry. *)
Lemma data_type_is_checked_witness :
  parseAttribute no_array_like (js "k")
    (JObject [(js "DataType", JString (js "string")); (js "StringValue", JString (js "x"))])
  = Throw (InvalidDataType (js "string") (js "k"))
  /\ parseAttribute no_array_like (js "k") (JObject [(js "StringValue", JString (js "x"))])
     = Throw (MissingDataType (js "k"))
  /\ parseAttribute no_array_like (js "k") (JNumber (float_of_decimal false 7 0))
     = Throw (MissingDataType (js "k")).
Proof.
  split; [|split].
  - refine (proj2 (data_type_is_checked no_array_like (js "k")
                     (JObject [(js "DataType", JString (js "string"));
                               (js "StringValue", JString (js "x"))]))
              (js "string") eq_refl _).
    intros [H|[H|[H|[]]]]; discriminate.
  - exact (proj1 (data_type_is_checked no_array_like (js "k")
                    (JObject [(js "StringValue", JString (js "x"))])) eq_refl).
  - exact (data_type_is_checked no_array_like (js "k")
             (JNumber (float_of_decimal false 7 0))).
Defined.

(** X6. For the types [String] and [Number] the [StringValue] is carried as
    the text [String] makes of it: a text is kept as it is (for [Number]
    as well, numeric or not), a number, a boolean and [null] are
    printed. *)
Theorem text_payload_is_coerced :
  forall (bfo : JSValue -> option (list Byte.byte)) (key : JSString)
         (props : Props JSValue) (ty : JSString) (v : JSValue),
  lookup (js "DataType") props = Some (JString ty) ->
  ty = js "String" \/ ty = js "Number" ->
  lookup (js "StringValue") props = Some v ->
  lookup (js "BinaryValue") props = None ->
  parseAttribute bfo key (JObject props) =
  match v with
  | JString s => Return {| DataType := ty; StringValue := Some s; BinaryValue := None |}
  | JNumber n =>
      Return {| DataType := ty; StringValue := Some (Number_toString n);
                BinaryValue := None |}
  | JBool b =>
      Return {| DataType := ty; StringValue := Some (if b then js "true" else js "false");
                BinaryValue := None |}
  | JNull => Return {| DataType := ty; StringValue := Some (js "null"); BinaryValue := None |}
  | _ => (s <- ToString v ;;
          Return {| DataType := ty; StringValue := Some s; BinaryValue := None |})%result
  end.
Proof.
  intros bfo key props ty v Hdt Hty Hsv Hbv.
  assert (Hin : In ty validDataTypes) by (destruct Hty as [-> | ->]; simpl; auto).
  rewrite (parseAttribute_typed bfo key props Hdt Hin), Hsv, Hbv.
  assert (Hc : jseq ty (js "String") || jseq ty (js "Number") = true)
    by (destruct Hty as [-> | ->]; reflexivity).
  rewrite Hc. cbn [bind].
  destruct v as [|[|]| | | |]; try reflexivity.
  - destruct (ToString (JArray elems)); reflexivity.
  - destruct (ToString (JObject props0)); reflexivity.
Qed.

Lemma text_payload_witness :
  parseAttribute no_array_like (js "Priority")
    (JObject [(js "DataType", JString (js "Number"));
              (js "StringValue", JString (js "not a number"))])
  = Return {| DataType := js "Number"; StringValue := Some (js "not a number");
              BinaryValue := None |}
  /\ parseAttribute no_array_like (js "Amount")
       (JObject [(js "DataType", JString (js "Number"));
                 (js "StringValue", JNumber (float_of_decimal false 9999 (-2)))])
     = Return {| DataType := js "Number"; StringValue := Some (js "99.99");
                 BinaryValue := None |}.
Proof.
  split.
  - exact (text_payload_is_coerced no_array_like (js "Priority")
             [(js "DataType", JString (js "Number"));
              (js "StringValue", JString (js "not a number"))]
             eq_refl (or_intror eq_refl) eq_refl eq_refl).
  - exact (text_payload_is_coerced no_array_like (js "Amount")
             [(js "DataType", JString (js "Number"));
              (js "StringValue", JNumber (float_of_decimal false 9999 (-2)))]
             eq_refl (or_intror eq_refl) eq_refl eq_refl).
Defined.

(** X7. Round trip: the base64 text of any bytes, given as the [BinaryValue]
    of a [Binary] entry, comes back as those bytes. *)
Theorem binary_payload_round_trip :
  forall (bfo : JSValue -> option (list Byte.byte)) (key : JSString)
         (props : Props JSValue) (bytes : list Byte.byte),
  lookup (js "DataType") props = Some (JString (js "Binary")) ->
  lookup (js "BinaryValue") props = Some (JString (base64_encode bytes)) ->
  lookup (js "StringValue") props = None ->
  parseAttribute bfo key (JObject props)
  = Return {| DataType := js "Binary"; StringValue := None; BinaryValue := Some bytes |}.
Proof.
  intros bfo key props bytes Hdt Hbv Hsv.
  assert (Hin : In (js "Binary") validDataTypes) by (simpl; auto).
  rewrite (parseAttribute_typed bfo key props Hdt Hin), Hsv, Hbv.
  cbn. now rewrite base64_decode_encode.
Qed.

Lemma binary_payload_round_trip_witness :
  parseAttribute no_array_like (js "Blob")
    (JObject [(js "DataType", JString (js "Binary"));
              (js "BinaryValue", JString (base64_encode [Byte.x00; Byte.xff; Byte.x10; Byte.x80]))])
  = Return {| DataType := js "Binary"; StringValue := None;
              BinaryValue := Some [Byte.x00; Byte.xff; Byte.x10; Byte.x80] |}.
Proof.
  exact (binary_payload_round_trip no_array_like (js "Blob")
           [(js "DataType", JString (js "Binary"));
            (js "BinaryValue", JString (base64_encode [Byte.x00; Byte.xff; Byte.x10; Byte.x80]))]
           [Byte.x00; Byte.xff; Byte.x10; Byte.x80] eq_refl eq_refl eq_refl).
Defined.

(** ** More on the validators *)

(** X8. An accepted URL starts with [https://sqs.] and has at least 31
    characters: no other scheme or host passes (an endpoint such as
    [http://localhost:4566/...] is refused). *)
Theorem accepted_url_prefix : forall url : JSString,
  validateQueueUrl url = Return tt ->
  firstn 12 url = js "https://sqs." /\ (31 <= length url)%nat.
Proof.
  intros url H. unfold validateQueueUrl in H. rewrite urlPattern_unfold in H.
  destruct (regex_test (queue_url_pattern dot) url) eqn:E; [|discriminate].
  apply queue_url_pattern_spec in E
    as (region & cn & account & name & -> & Hr & _ & Ha & _ & Hn & _).
  split; [reflexivity|].
  change (js "https://sqs." ++ region ++ js ".amazonaws.com" ++ (if cn then js ".cn" else [])
          ++ js "/" ++ account ++ js "/" ++ name)
    with (js "https://sqs." ++ (region ++ (js ".amazonaws.com" ++ ((if cn then js ".cn" else [])
          ++ (js "/" ++ (account ++ (js "/" ++ name))))))).
  rewrite !length_app.
  destruct region; [congruence|]. destruct account; [congruence|].
  destruct name; [congruence|]. simpl. lia.
Qed.

Lemma accepted_url_prefix_witness :
  firstn 12 standard_url = js "https://sqs." /\ (31 <= length standard_url)%nat.
Proof. exact (accepted_url_prefix standard_url eq_refl). Defined.

Lemma utf8_of_code_point_length cp :
  length (utf8_of_code_point cp)
  = if cp <? 128 then 1%nat else if cp <? 2048 then 2%nat
    else if cp <? 65536 then 3%nat else 4%nat.
Proof.
  unfold utf8_of_code_point.
  destruct (cp <? 128); [reflexivity|]. destruct (cp <? 2048); [reflexivity|].
  destruct (cp <? 65536); reflexivity.
Qed.

Lemma utf8_length_bounds n : forall s,
  (length s <= n)%nat ->
  Forall (fun c => c < 65536) s ->
  (length s <= length (utf8_encode s) <= 3 * length s)%nat.
Proof.
  unfold utf8_encode.
  induction n as [|n IH]; intros s Hn Hs.
  - destruct s; [simpl; lia | simpl in Hn; lia].
  - destruct s as [|c s]; [simpl; lia|].
    inversion Hs as [|? ? Hc Hs']; subst. simpl in Hn.
    cbn [code_points].
    destruct (is_high_surrogate c) eqn:Hh.
    + destruct s as [|d s].
      * simpl. lia.
      * inversion Hs' as [|? ? Hd Hs'']; subst.
        destruct (is_low_surrogate d) eqn:Hl.
        -- cbn [flat_map]. rewrite length_app, utf8_of_code_point_length.
           assert (Hbig : (65536 + (c - 55296) * 1024 + (d - 56320) <? 65536) = false)
             by (apply N.ltb_ge; lia).
           assert (H1 : (65536 + (c - 55296) * 1024 + (d - 56320) <? 128) = false)
             by (apply N.ltb_ge; lia).
           assert (H2 : (65536 + (c - 55296) * 1024 + (d - 56320) <? 2048) = false)
             by (apply N.ltb_ge; lia).
           rewrite H1, H2, Hbig.
           specialize (IH s ltac:(simpl in Hn; lia) Hs''). simpl length. lia.
        -- cbn [flat_map]. rewrite length_app.
           specialize (IH (d :: s) ltac:(lia) Hs'). simpl length in *. lia.
    + assert (Hone : (1 <= length (utf8_of_code_point
                                     (if is_low_surrogate c then 65533 else c)) <= 3)%nat).
      { rewrite utf8_of_code_point_length.
        destruct (is_low_surrogate c).
        - simpl. lia.
        - destruct (c <? 128); [lia|]. destruct (c <? 2048); [lia|].
          destruct (c <? 65536) eqn:E; [lia|]. apply N.ltb_ge in E. lia. }
      specialize (IH s ltac:(lia) Hs').
      destruct (is_low_surrogate c); cbn [flat_map]; rewrite length_app; simpl length; lia.
Qed.

(** X9. A code unit takes one to three bytes.  So a body of at most 87381
    code units always passes, a body of more than 262144 never does, and a
    body of ASCII characters is measured by its length. *)
Theorem body_size_by_length : forall body : JSString,
  Forall (fun c => c < 65536) body ->
  (N.of_nat (length body) <= Buffer_byteLength body <= 3 * N.of_nat (length body))
  /\ (N.of_nat (length body) <= 87381 -> validateMessageBody body = Return tt)
  /\ (262144 < N.of_nat (length body) ->
      validateMessageBody body = Throw (BodyTooLarge (Buffer_byteLength body)))
  /\ (Forall (fun c => c < 128) body -> Buffer_byteLength body = N.of_nat (length body)).
Proof.
  intros body Hb.
  pose proof (@utf8_length_bounds (length body) body (le_n _) Hb) as Hl.
  assert (Hbounds : N.of_nat (length body) <= Buffer_byteLength body
                    <= 3 * N.of_nat (length body))
    by (unfold Buffer_byteLength; lia).
  split; [exact Hbounds|].
  rewrite validateMessageBody_spec. change maxSizeBytes with 262144.
  split; [|split].
  - intros H. destruct (N.ltb_spec 262144 (Buffer_byteLength body)); [lia | reflexivity].
  - intros H. destruct (N.ltb_spec 262144 (Buffer_byteLength body)); [reflexivity | lia].
  - intros Ha. unfold Buffer_byteLength, utf8_encode. f_equal.
    rewrite code_points_plain.
    + clear Hb Hl Hbounds. induction Ha as [|c s Hc _ IH]; [reflexivity|].
      cbn [flat_map]. rewrite length_app, IH, utf8_of_code_point_length.
      apply N.ltb_lt in Hc. rewrite Hc. reflexivity.
    + apply Forall_forall. intros c Hc. rewrite Forall_forall in Ha. specialize (Ha c Hc).
      unfold is_high_surrogate, is_low_surrogate.
      split; apply andb_false_iff; left; apply N.leb_gt; lia.
Qed.

Lemma body_size_by_length_witness :
  validateMessageBody (js "hi") = Return tt
  /\ Buffer_byteLength (js "hi") = 2.
Proof.
  assert (Hw : Forall (fun c => c < 65536) (js "hi")) by (repeat constructor).
  assert (Ha : Forall (fun c => c < 128) (js "hi")) by (repeat constructor).
  split.
  - apply (proj1 (proj2 (body_size_by_length Hw))). simpl. lia.
  - exact (proj2 (proj2 (proj2 (body_size_by_length Hw))) Ha).
Defined.

(** ** More on [sendMessage] *)

(** An action none of whose events is of a kind. *)
Definition never (P : Event -> bool) {A} (m : Action A) : Prop :=
  forall ev, In ev (events m) -> P ev = false.

Lemma never_abind P {A B} (m : Action A) (f : A -> Action B) :
  never P m -> (forall a, never P (f a)) -> never P (abind m f).
Proof.
  intros Hm Hf ev. rewrite events_abind, in_app_iff. intros [H|H].
  - now apply Hm.
  - destruct (outcome m); [now apply (Hf a) | destruct H].
Qed.

Lemma never_acatch P {A} (m : Action A) (h : Error -> Action A) :
  never P m -> (forall e, never P (h e)) -> never P (acatch m h).
Proof.
  intros Hm Hh ev. rewrite events_acatch, in_app_iff. intros [H|H].
  - now apply Hm.
  - destruct (outcome m); [destruct H | now apply (Hh e)].
Qed.

Lemma never_lift P {A} (r : Result A) : never P (lift r).
Proof. intros ev []. Qed.

Lemma never_ret P {A} (a : A) : never P (ret a).
Proof. intros ev []. Qed.

Lemma never_raise P {A} (e : Error) : never P (@raise A e).
Proof. intros ev []. Qed.

Lemma never_emit P ev : P ev = false -> never P (emit ev).
Proof. intros H ev' [<-|[]]. exact H. Qed.

Lemma never_when P b m : never P m -> never P (when b m).
Proof. destruct b; [trivial | intros _; apply never_ret]. Qed.

Lemma never_send P client input : P (Submit input) = false -> never P (send client input).
Proof. intros H ev [<-|[]]. exact H. Qed.

Create HintDb never.
#[local] Hint Resolve never_lift never_ret never_raise never_when : never.
#[local] Hint Extern 1 (never _ (emit _)) => apply never_emit; reflexivity : never.
#[local] Hint Extern 1 (never _ (send _ _)) => apply never_send; reflexivity : never.
#[local] Hint Extern 2 (never _ (abind _ _)) => apply never_abind; [|intros] : never.
#[local] Hint Extern 2 (never _ (acatch _ _)) => apply never_acatch; [|intros] : never.
#[local] Hint Extern 3 (never _ (match ?x with _ => _ end)) => destruct x : never.

Definition is_warning (ev : Event) : bool :=
  match ev with LogWarning _ => true | _ => false end.

Definition is_report (ev : Event) : bool :=
  match ev with SetOutput _ _ | SetFailed _ => true | _ => false end.

Lemma sendMessage_never_reports em bfo client config :
  never is_report (sendMessage em bfo client config).
Proof.
  unfold sendMessage, buildRequest, validateFifoQueue. auto 40 with never.
Qed.

(** X10. The built request mirrors the configuration: URL and body as given,
    each optional field present exactly when its input is supplied (not
    empty), the deduplication id forwarded like the group id, and the two
    attribute maps as parsed. *)
Theorem request_mirrors_config :
  forall (bfo : JSValue -> option (list Byte.byte)) (config : MessageConfig)
         (input : SendMessageCommandInput),
  outcome (buildRequest bfo config) = Return input ->
  QueueUrl input = queueUrl config
  /\ MessageBody input = messageBody config
  /\ MessageGroupId input = supplied (messageGroupId config)
  /\ MessageDeduplicationId input = supplied (messageDeduplicationId config)
  /\ parseOptional (parseMessageAttributes bfo) (messageAttributes config)
     = Return (MessageAttributes input)
  /\ parseOptional (parseSystemAttributes bfo) (systemAttributes config)
     = Return (MessageSystemAttributes input)
  /\ (MessageAttributes input = None <-> truthy (messageAttributes config) = false)
  /\ (MessageSystemAttributes input = None <-> truthy (systemAttributes config) = false).
Proof.
  intros bfo config input. rewrite buildRequest_outcome.
  destruct (validateQueueUrl _); [|discriminate].
  destruct (validateMessageBody _); [|discriminate].
  destruct (validateDelaySeconds _); [|discriminate].
  destruct (outcome (validateFifoQueue _ _)); [|discriminate].
  cbn [bind]. unfold parseSystemAttributes.
  destruct (parseOptional _ (messageAttributes config)) as [attrs|] eqn:Ha; [|discriminate].
  destruct (parseOptional _ (systemAttributes config)) as [sys|] eqn:Hs; [|discriminate].
  cbn [bind]. intros H. injection H as <-. cbn.
  assert (Hnone : forall o r, parseOptional (parseMessageAttributes bfo) o = Return r ->
                              (r = None <-> truthy o = false)).
  { intros [text|] r; simpl.
    - destruct (nonempty text).
      + destruct (parseMessageAttributes bfo text); [|discriminate].
        cbn. intros H. injection H as <-. split; discriminate.
      + intros H. injection H as <-. now split.
    - intros H. injection H as <-. now split. }
  repeat split; try reflexivity; try apply (Hnone _ _ Ha); try apply (Hnone _ _ Hs).
Qed.

Definition full_config : MessageConfig :=
  {| queueUrl := standard_url;
     messageBody := js "hi";
     messageAttributes := Some two_entries_text;
     delaySeconds := Some 5%Z;
     messageGroupId := None;
     messageDeduplicationId := Some (js "d-1");
     systemAttributes := Some [] |}.

(** A standard queue with a deduplication id, attributes, and an empty
    system-attributes text: the id and the attributes are in the request,
    the system attributes are not. *)
Lemma request_mirrors_config_witness :
  exists input,
    outcome (buildRequest no_array_like full_config) = Return input
    /\ MessageDeduplicationId input = Some (js "d-1")
    /\ MessageGroupId input = None
    /\ (MessageSystemAttributes input = None <-> truthy (Some []) = false).
Proof.
  destruct (outcome (buildRequest no_array_like full_config)) as [input|] eqn:E;
    [|vm_compute in E; discriminate].
  exists input. split; [reflexivity|].
  pose proof (request_mirrors_config no_array_like full_config E)
    as (_ & _ & Hg & Hd & _ & _ & _ & Hs).
  split; [exact Hd | split; [exact Hg | exact Hs]].
Defined.

Lemma In_abind_never P {A B} (m : Action A) (f : A -> Action B) ev :
  P ev = true -> (forall a, never P (f a)) ->
  In ev (events (abind m f)) <-> In ev (events m).
Proof.
  intros Hev Hf. rewrite events_abind, in_app_iff. split; [|now left].
  intros [H|H]; [exact H|].
  destruct (outcome m) as [a|]; [|destruct H].
  apply Hf in H. congruence.
Qed.

Lemma In_acatch_never P {A} (m : Action A) (h : Error -> Action A) ev :
  P ev = true -> (forall e, never P (h e)) ->
  In ev (events (acatch m h)) <-> In ev (events m).
Proof.
  intros Hev Hh. rewrite events_acatch, in_app_iff. split; [|now left].
  intros [H|H]; [exact H|].
  destruct (outcome m) as [|e]; [destruct H|].
  apply Hh in H. congruence.
Qed.

Lemma abind_lift_Throw {A B} (e : Error) (k : A -> Action B) :
  abind (lift (Throw e)) k = ([], Throw e).
Proof. reflexivity. Qed.

(** X11. The only warning of [sendMessage] is the one about a group id on a
    queue that is not FIFO, given once the URL, the body and the delay
    have passed; a deduplication id never draws one. *)
Theorem only_warning_is_group_id :
  forall (em : EngineError -> JSString) (bfo : JSValue -> option (list Byte.byte))
         (client : SQSClient) (config : MessageConfig) (w : JSString),
  In (LogWarning w) (events (sendMessage em bfo client config)) <->
  (w = fifo_warning
   /\ validateQueueUrl (queueUrl config) = Return tt
   /\ validateMessageBody (messageBody config) = Return tt
   /\ validateDelaySeconds (delaySeconds config) = Return tt
   /\ endsWith (queueUrl config) (js ".fifo") = false
   /\ truthy (messageGroupId config) = true).
Proof.
  intros em bfo client config w.
  unfold sendMessage.
  rewrite (@In_acatch_never is_warning) by (try reflexivity; intros; auto 10 with never).
  rewrite (@In_abind_never is_warning) by (try reflexivity; intros; auto 20 with never).
  unfold buildRequest.
  destruct (validateQueueUrl (queueUrl config)) as [[]|e1];
    [rewrite abind_lift_Return
    | rewrite abind_lift_Throw; split; [intros [] | intros (_ & H & _); discriminate]].
  destruct (validateMessageBody (messageBody config)) as [[]|e2];
    [rewrite abind_lift_Return
    | rewrite abind_lift_Throw; split; [intros [] | intros (_ & _ & H & _); discriminate]].
  destruct (validateDelaySeconds (delaySeconds config)) as [[]|e3];
    [rewrite abind_lift_Return
    | rewrite abind_lift_Throw; split; [intros [] | intros (_ & _ & _ & H & _); discriminate]].
  rewrite (@In_abind_never is_warning) by (try reflexivity; intros; auto 40 with never).
  unfold validateFifoQueue.
  destruct (endsWith (queueUrl config) (js ".fifo"));
    destruct (truthy (messageGroupId config)); cbn.
  - split; [intros [] | intros (_ & _ & _ & _ & H & _); discriminate].
  - split; [intros [] | intros (_ & _ & _ & _ & H & _); discriminate].
  - split.
    + intros [H|[]]. injection H as <-. repeat split.
    + intros (-> & _). now left.
  - split; [intros [] | intros (_ & _ & _ & _ & _ & H); discriminate].
Qed.

Lemma only_warning_witness :
  In (LogWarning fifo_warning)
     (events (sendMessage sample_engine_message no_array_like accepting_client
                (grouped_config standard_url (js "g1")))).
Proof.
  apply (proj2 (only_warning_is_group_id sample_engine_message no_array_like accepting_client
                  (grouped_config standard_url (js "g1")) fifo_warning)).
  repeat split.
Defined.

Lemma filter_never P {A} (m : Action A) : never P m -> filter P (events m) = [].
Proof.
  unfold never. induction (events m) as [|ev l IH]; intros H; [reflexivity|].
  simpl. rewrite (H ev (or_introl eq_refl)). apply IH. intros ev' Hin. apply H. now right.
Qed.

Lemma buildRequest_never_submits bfo config : never is_submit (buildRequest bfo config).
Proof. unfold buildRequest, validateFifoQueue. auto 40 with never. Qed.

(** X12. One call of [sendMessage] calls the client once when the request is
    built, whether the client then accepts or rejects it (no retry), and
    not at all otherwise. *)
Theorem sendMessage_submits_once :
  forall (em : EngineError -> JSString) (bfo : JSValue -> option (list Byte.byte))
         (client : SQSClient) (config : MessageConfig),
  filter is_submit (events (sendMessage em bfo client config))
  = match outcome (buildRequest bfo config) with
    | Return input => [Submit input]
    | Throw _ => []
    end.
Proof.
  intros em bfo client config. unfold sendMessage.
  rewrite events_acatch, filter_app.
  match goal with
  | |- _ ++ filter _ ?h = _ =>
      assert (Hh : filter is_submit h = [])
  end.
  { destruct (outcome _); [reflexivity|]. apply filter_never. auto 10 with never. }
  rewrite Hh, app_nil_r. clear Hh.
  rewrite events_abind, filter_app.
  rewrite (filter_never (buildRequest_never_submits bfo config)). cbn [app].
  destruct (outcome (buildRequest bfo config)) as [input|e]; [|reflexivity].
  rewrite events_abind, filter_app. unfold send at 1 2. cbn [events outcome fst snd filter is_submit].
  destruct (client input) as [response|e]; [|reflexivity].
  cbn [app]. f_equal. apply filter_never. auto 20 with never.
Qed.

(** ** More on [run] *)

(** What [run] does with the result of [sendMessage]. *)
Definition report (result : MessageResult) : Action unit :=
  (if negb (success result) then
     raise (SendFailed (match error result with
                        | Some msg => orElse msg (js "Failed to send message")
                        | None => js "Failed to send message"
                        end))
   else
     output (js "message-id") (messageId result) ;;
     output (js "sequence-number") (sequenceNumber result) ;;
     output (js "md5-of-body") (md5OfBody result) ;;
     output (js "md5-of-attributes") (md5OfAttributes result) ;;
     emit (LogInfo []) ;;
     emit (LogInfo rule) ;;
     emit (LogInfo (js "Message sent successfully")) ;;
     match messageId result with
     | Some id => when (nonempty id) (emit (LogInfo (js "Message ID: " ++ id)))
     | None => ret tt
     end ;;
     match sequenceNumber result with
     | Some n => when (nonempty n) (emit (LogInfo (js "Sequence Number: " ++ n)))
     | None => ret tt
     end ;;
     emit (LogInfo rule))%action.

Lemma run_body_unfold em bfo inputs client :
  nonempty (in_queue_url inputs) = true ->
  nonempty (in_message_body inputs) = true ->
  run_body em bfo inputs client =
  (emit (LogInfo (js "AWS SQS Send Message")) ;;
   emit (LogInfo (js "Queue URL: " ++ trim (in_queue_url inputs))) ;;
   match parseInt (delay_text inputs) with
   | None => raise (InvalidDelay (delay_text inputs))
   | Some delay =>
       result <- sendMessage em bfo client (config_of_inputs inputs delay) ;;
       report result
   end)%action.
Proof.
  intros Hq Hb. unfold run_body, getInput. rewrite Hq, Hb.
  cbn [andb negb]. rewrite !abind_lift_Return. cbv zeta. reflexivity.
Qed.

Lemma run_body_missing em bfo inputs client :
  (nonempty (in_queue_url inputs) = false ->
   run_body em bfo inputs client = ([], Throw (InputRequired (js "queue-url"))))
  /\ (nonempty (in_queue_url inputs) = true ->
      nonempty (in_message_body inputs) = false ->
      run_body em bfo inputs client = ([], Throw (InputRequired (js "message-body")))).
Proof.
  unfold run_body, getInput. split.
  - intros ->. reflexivity.
  - intros -> ->. cbn [andb negb]. rewrite abind_lift_Return. reflexivity.
Qed.

(** X13. Without a queue URL, or without a body, [run] fails at once: the
    only thing it does is to report that the input is required. *)
Theorem run_requires_inputs :
  forall (em : EngineError -> JSString) (bfo : JSValue -> option (list Byte.byte))
         (inputs : ActionInputs) (client : SQSClient),
  (in_queue_url inputs = [] ->
   run em bfo inputs client
   = ([SetFailed (js "Input required and not supplied: queue-url")], Return tt))
  /\ (in_queue_url inputs <> [] -> in_message_body inputs = [] ->
      run em bfo inputs client
      = ([SetFailed (js "Input required and not supplied: message-body")], Return tt)).
Proof.
  intros em bfo inputs client. unfold run. split.
  - intros H. rewrite (proj1 (run_body_missing em bfo inputs client)); [reflexivity|].
    now rewrite H.
  - intros Hq Hb. rewrite (proj2 (run_body_missing em bfo inputs client)); [reflexivity| |].
    + destruct (in_queue_url inputs); [congruence | reflexivity].
    + now rewrite Hb.
Qed.

Definition inputs_without_body : ActionInputs :=
  {| in_queue_url := standard_url;
     in_message_body := [];
     in_message_attributes := [];
     in_delay_seconds := [];
     in_message_group_id := [];
     in_message_deduplication_id := [];
     in_system_attributes := [] |}.

Lemma run_requires_inputs_witness :
  run sample_engine_message no_array_like inputs_without_body accepting_client
  = ([SetFailed (js "Input required and not supplied: message-body")], Return tt).
Proof.
  apply (proj2 (run_requires_inputs sample_engine_message no_array_like
                  inputs_without_body accepting_client)); [discriminate | reflexivity].
Defined.

Lemma In_emit_bind P {B} (e : Event) (k : unit -> Action B) ev :
  P ev = true -> P e = false ->
  In ev (events (abind (emit e) k)) <-> In ev (events (k tt)).
Proof.
  intros Hev He. rewrite events_abind. cbn. split; [|now right].
  intros [<-|H]; [congruence | exact H].
Qed.

Lemma report_never_submits result : never is_submit (report result).
Proof. unfold report, output. auto 40 with never. Qed.

(** X14. Whatever [run] submits is made of its inputs: the URL, the body and
    the ids trimmed of surrounding white space, an id that is then empty
    left out, and the delay [parseInt] reads, left out when it is 0 (as
    when no delay is given). *)
Theorem run_submits_its_inputs :
  forall (em : EngineError -> JSString) (bfo : JSValue -> option (list Byte.byte))
         (inputs : ActionInputs) (client : SQSClient) (input : SendMessageCommandInput),
  In (Submit input) (events (run em bfo inputs client)) ->
  QueueUrl input = trim (in_queue_url inputs)
  /\ MessageBody input = trim (in_message_body inputs)
  /\ DelaySeconds input = positive_delay (parseInt (delay_text inputs))
  /\ (trim (in_delay_seconds inputs) = [] -> DelaySeconds input = None)
  /\ MessageGroupId input = orUndefined (trim (in_message_group_id inputs))
  /\ MessageDeduplicationId input = orUndefined (trim (in_message_deduplication_id inputs)).
Proof.
  intros em bfo inputs client input. unfold run.
  rewrite (@In_acatch_never is_submit) by (try reflexivity; intros; auto with never).
  destruct (nonempty (in_queue_url inputs)) eqn:Hq;
    [|rewrite (proj1 (run_body_missing em bfo inputs client) Hq); intros []].
  destruct (nonempty (in_message_body inputs)) eqn:Hb;
    [|rewrite (proj2 (run_body_missing em bfo inputs client) Hq Hb); intros []].
  rewrite (run_body_unfold em bfo inputs client Hq Hb).
  rewrite !(@In_emit_bind is_submit) by reflexivity.
  destruct (parseInt (delay_text inputs)) as [d|] eqn:Hd; [|intros []].
  rewrite (@In_abind_never is_submit)
    by (try reflexivity; intros; apply report_never_submits).
  intros H. apply sendMessage_submits in H.
  apply buildRequest_returns in H as (attrs & sys & ->).
  assert (Hs : forall s, supplied (orUndefined s) = orUndefined s).
  { intros s. unfold supplied, orUndefined.
    destruct (nonempty s) eqn:Hn; [now rewrite Hn | reflexivity]. }
  cbn. rewrite !Hs. repeat split.
  intros He. unfold delay_text in Hd. rewrite He in Hd. cbn in Hd.
  injection Hd as <-. reflexivity.
Qed.

Definition padded_inputs : ActionInputs :=
  {| in_queue_url := js "  " ++ standard_url ++ js " ";
     in_message_body := js " hi ";
     in_message_attributes := [];
     in_delay_seconds := js "  ";
     in_message_group_id := js " ";
     in_message_deduplication_id := js "d-1";
     in_system_attributes := [] |}.

Lemma run_submits_its_inputs_witness :
  exists input,
    In (Submit input)
       (events (run sample_engine_message no_array_like padded_inputs accepting_client))
    /\ QueueUrl input = standard_url
    /\ MessageBody input = js "hi"
    /\ DelaySeconds input = None
    /\ MessageGroupId input = None
    /\ MessageDeduplicationId input = Some (js "d-1").
Proof.
  assert (Hin : In (Submit {| QueueUrl := standard_url; MessageBody := js "hi";
                              DelaySeconds := None; MessageAttributes := None;
                              MessageSystemAttributes := None; MessageGroupId := None;
                              MessageDeduplicationId := Some (js "d-1") |})
                   (events (run sample_engine_message no_array_like padded_inputs
                              accepting_client))).
  { vm_compute. do 5 right. left. reflexivity. }
  eexists. split; [exact Hin|].
  pose proof (run_submits_its_inputs _ _ _ _ _ Hin) as (H1 & H2 & H3 & H4 & H5 & H6).
  repeat split; assumption.
Defined.

(** *** What [run] reports *)

Definition output_events (name : JSString) (value : option JSString) : list Event :=
  match value with
  | Some v => if nonempty v then [SetOutput name v] else []
  | None => []
  end.

Definition outputs_of (result : MessageResult) : list Event :=
  output_events (js "message-id") (messageId result)
  ++ output_events (js "sequence-number") (sequenceNumber result)
  ++ output_events (js "md5-of-body") (md5OfBody result)
  ++ output_events (js "md5-of-attributes") (md5OfAttributes result).

Definition failure_text (result : MessageResult) : JSString :=
  match error result with
  | Some msg => orElse msg (js "Failed to send message")
  | None => js "Failed to send message"
  end.

Lemma events_output_bind {B} name value (k : unit -> Action B) :
  events (abind (output name value) k) = output_events name value ++ events (k tt).
Proof.
  rewrite events_abind. unfold output, output_events.
  destruct value as [v|]; [destruct (nonempty v)|]; reflexivity.
Qed.

Lemma filter_output_events name value :
  filter is_report (output_events name value) = output_events name value.
Proof.
  unfold output_events. destruct value as [v|]; [destruct (nonempty v)|]; reflexivity.
Qed.

Lemma report_reports result :
  filter is_report (events (report result))
  = (if success result then outputs_of result else [])
  /\ outcome (report result)
     = if success result then Return tt else Throw (SendFailed (failure_text result)).
Proof.
  unfold report. destruct (success result); cbn [negb]; [|split; reflexivity].
  split.
  - rewrite !events_output_bind, !filter_app, !filter_output_events.
    rewrite filter_never by auto 40 with never.
    unfold outputs_of. now rewrite app_nil_r.
  - assert (Ho : forall name value (k : unit -> Action unit),
               outcome (abind (output name value) k) = outcome (k tt)).
    { intros name value k. rewrite outcome_abind. unfold output.
      destruct value as [v|]; [destruct (nonempty v)|]; reflexivity. }
    rewrite !Ho, !outcome_emit_bind.
    rewrite outcome_abind.
    destruct (messageId result) as [[|]|]; cbn; rewrite outcome_abind;
      destruct (sequenceNumber result) as [[|]|]; reflexivity.
Qed.

Lemma run_sent em bfo inputs client delay result :
  nonempty (in_queue_url inputs) = true ->
  nonempty (in_message_body inputs) = true ->
  parseInt (delay_text inputs) = Some delay ->
  outcome (sendMessage em bfo client (config_of_inputs inputs delay)) = Return result ->
  filter is_report (events (run em bfo inputs client))
  = if success result then outputs_of result else [SetFailed (failure_text result)].
Proof.
  intros Hq Hb Hd Hr.
  unfold run. rewrite (run_body_unfold em bfo inputs client Hq Hb), Hd.
  rewrite events_acatch, filter_app.
  rewrite !outcome_emit_bind, outcome_abind, Hr.
  rewrite !events_abind, Hr.
  cbn [events outcome emit fst snd app filter is_report].
  rewrite !filter_app.
  rewrite (filter_never (sendMessage_never_reports em bfo client _)).
  destruct (report_reports result) as [He Ho]. rewrite He, Ho.
  destruct (success result); cbn; [now rewrite app_nil_r | reflexivity].
Qed.

Lemma nonempty_cons (s : JSString) : s <> [] -> nonempty s = true.
Proof. destruct s; [congruence | reflexivity]. Qed.

(** X15. What [run] reports, by the result of [sendMessage]: on success the
    outputs whose value is present and not empty, in the order
    message-id, sequence-number, md5-of-body, md5-of-attributes, and no
    failure; on failure the failure alone, with the error text, or with
    "Failed to send message" when that text is empty. *)
Theorem run_reports_the_result :
  forall (em : EngineError -> JSString) (bfo : JSValue -> option (list Byte.byte))
         (inputs : ActionInputs) (client : SQSClient) (delay : Z) (result : MessageResult),
  in_queue_url inputs <> [] ->
  in_message_body inputs <> [] ->
  parseInt (delay_text inputs) = Some delay ->
  outcome (sendMessage em bfo client (config_of_inputs inputs delay)) = Return result ->
  filter is_report (events (run em bfo inputs client))
  = if success result then outputs_of result else [SetFailed (failure_text result)].
Proof.
  intros em bfo inputs client delay result Hq Hb.
  apply run_sent; now apply nonempty_cons.
Qed.

Lemma run_reports_the_result_witness :
  filter is_report
    (events (run sample_engine_message no_array_like (inputs_with_delay (js "5"))
               accepting_client))
  = [SetOutput (js "message-id") (js "5fea7756-0ea4-451a-a703-a558b933e274");
     SetOutput (js "md5-of-body") (js "49f68a5c8493ec2c0bf489821c21fc3b")]
  /\ filter is_report
       (events (run sample_engine_message no_array_like (inputs_with_delay (js "5"))
                  (fun _ => Throw (Client []))))
     = [SetFailed (js "Failed to send message")].
Proof.
  split.
  - refine (run_reports_the_result sample_engine_message no_array_like
              (inputs_with_delay (js "5")) accepting_client (delay := 5)
              (result := succeeded
                 {| MessageId := Some (js "5fea7756-0ea4-451a-a703-a558b933e274");
                    SequenceNumber := None;
                    MD5OfMessageBody := Some (js "49f68a5c8493ec2c0bf489821c21fc3b");
                    MD5OfMessageAttributes := None |}) _ _ _ _);
      try discriminate; vm_compute; reflexivity.
  - refine (run_reports_the_result sample_engine_message no_array_like
              (inputs_with_delay (js "5")) (fun _ => Throw (Client [])) (delay := 5)
              (result := failed []) _ _ _ _);
      try discriminate; vm_compute; reflexivity.
Defined.

(** X16. [run] never throws, and it either reports a failure and sets no
    output, or sets outputs and reports no failure. *)
Theorem run_fails_or_sets_outputs :
  forall (em : EngineError -> JSString) (bfo : JSValue -> option (list Byte.byte))
         (inputs : ActionInputs) (client : SQSClient),
  outcome (run em bfo inputs client) = Return tt
  /\ ((exists msg, filter is_report (events (run em bfo inputs client)) = [SetFailed msg])
      \/ (exists result,
            success result = true
            /\ filter is_report (events (run em bfo inputs client)) = outputs_of result)).
Proof.
  intros em bfo inputs client. split.
  - unfold run. rewrite outcome_acatch. destruct (outcome _) as [[]|e]; reflexivity.
  - destruct (nonempty (in_queue_url inputs)) eqn:Hq.
    2:{ left. unfold run.
        rewrite (proj1 (run_body_missing em bfo inputs client) Hq). now eexists. }
    destruct (nonempty (in_message_body inputs)) eqn:Hb.
    2:{ left. unfold run.
        rewrite (proj2 (run_body_missing em bfo inputs client) Hq Hb). now eexists. }
    destruct (parseInt (delay_text inputs)) as [d|] eqn:Hd.
    + destruct (outcome (sendMessage em bfo client (config_of_inputs inputs d)))
        as [result|e] eqn:Hr.
      * rewrite (run_sent em bfo inputs client Hq Hb Hd Hr).
        destruct (success result) eqn:Hs; [right | left]; eauto.
      * rewrite sendMessage_outcome in Hr. discriminate.
    + left. unfold run. rewrite (run_body_unfold em bfo inputs client Hq Hb), Hd.
      now eexists.
Qed.

(** *** The delay text *)

Definition all_digits (ds : JSString) : Prop := Forall (fun c => is_digit c = true) ds.

Definition no_digit_ahead (s : JSString) : Prop :=
  match s with
  | c :: _ => is_digit c = false
  | [] => True
  end.

Lemma is_digit_cases c :
  is_digit c = true ->
  c = 48 \/ c = 49 \/ c = 50 \/ c = 51 \/ c = 52 \/ c = 53 \/ c = 54 \/ c = 55
  \/ c = 56 \/ c = 57.
Proof.
  unfold is_digit. rewrite andb_true_iff, !N.leb_le. lia.
Qed.

Lemma span_digits_app ds rest :
  all_digits ds -> no_digit_ahead rest -> span_digits (ds ++ rest) = (ds, rest).
Proof.
  intros Hds Hrest. induction Hds as [|c ds Hc _ IH]; simpl.
  - destruct rest as [|c rest]; [reflexivity|]. simpl in *. now rewrite Hrest.
  - now rewrite Hc, IH.
Qed.

Lemma parseInt_digit c s :
  is_digit c = true ->
  parseInt (c :: s)
  = match fst (span_digits (c :: s)) with
    | [] => None
    | ds => Some (Z.of_N (digits_value ds))
    end.
Proof.
  intros Hc. unfold parseInt.
  destruct (is_digit_cases c Hc) as [->|[->|[->|[->|[->|[->|[->|[->|[->| ->]]]]]]]]];
    cbn [trimStart is_space N.eqb N.leb N.compare Pos.eqb Pos.compare Pos.compare_cont
         orb andb];
    destruct (span_digits _) as [[|d ds] r]; reflexivity.
Qed.

Lemma parseInt_leading_digits ds rest :
  ds <> [] -> all_digits ds -> no_digit_ahead rest ->
  parseInt (ds ++ rest) = Some (Z.of_N (digits_value ds)).
Proof.
  intros Hne Hds Hrest. destruct ds as [|c ds]; [congruence|].
  change ((c :: ds) ++ rest) with (c :: (ds ++ rest)).
  rewrite parseInt_digit by now inversion Hds.
  change (c :: (ds ++ rest)) with ((c :: ds) ++ rest).
  now rewrite span_digits_app.
Qed.

(** *** The Number [parseInt] returns *)

(** The integer a Number is, when it is one: the value of a finite
    [(-1)^neg * m * 2^e] without a fraction. *)
Definition Number_integer (x : JSNumber) : option Z :=
  match x with
  | Infinite _ => None
  | Finite neg m e =>
      let signed (v : N) := if neg then (- Z.of_N v)%Z else Z.of_N v in
      if (0 <=? e)%Z then Some (signed (m * 2 ^ Z.to_N e))
      else if m mod 2 ^ Z.to_N (- e) =? 0 then Some (signed (m / 2 ^ Z.to_N (- e)))
      else None
  end.

Lemma div_round_even_1 p : div_round_even p 1 = p.
Proof.
  unfold div_round_even. rewrite N.mod_1_r, N.div_1_r. reflexivity.
Qed.

Lemma float_of_ratio_integer neg p :
  0 < p -> p < 2 ^ 53 ->
  float_of_ratio neg p 1
  = Finite neg (p * 2 ^ (52 - N.log2 p)) (Z.of_N (N.log2 p) - 52).
Proof.
  intros Hp Hlt.
  destruct (N.log2_spec p Hp) as [Hlo Hhi].
  assert (HL : N.log2 p <= 52).
  { apply N.lt_succ_r. apply (N.pow_lt_mono_r_iff 2); [lia|].
    eapply N.le_lt_trans; [exact Hlo | exact Hlt]. }
  unfold float_of_ratio.
  destruct (N.eqb_spec p 0) as [->|_]; [lia|].
  change (N.log2 1) with 0. change (Z.of_N 0) with 0%Z. rewrite Z.sub_0_r.
  set (L := N.log2 p) in *.
  destruct (Z.leb_spec 0 (Z.of_N L)) as [_|]; [|lia].
  rewrite N2Z.id, N.mul_1_l.
  destruct (N.leb_spec (2 ^ L) p) as [_|]; [|lia].
  rewrite Z.max_l by lia.
  assert (Hm : p * 2 ^ (52 - L) < 2 ^ 53).
  { replace 53 with (N.succ L + (52 - L)) by lia.
    rewrite N.pow_add_r. apply N.mul_lt_mono_pos_r; [|exact Hhi].
    apply N.neq_0_lt_0, N.pow_nonzero. lia. }
  assert (Hpos : p * 2 ^ (52 - L) <> 0).
  { apply N.neq_mul_0. split; [lia | apply N.pow_nonzero; lia]. }
  assert (HM : (if (0 <=? Z.of_N L - 52)%Z
                then div_round_even p (1 * 2 ^ Z.to_N (Z.of_N L - 52))
                else div_round_even (p * 2 ^ Z.to_N (- (Z.of_N L - 52))) 1)
               = p * 2 ^ (52 - L)).
  { destruct (Z.leb_spec 0 (Z.of_N L - 52)).
    - assert (L = 52) as -> by lia. cbn. rewrite div_round_even_1. lia.
    - rewrite div_round_even_1. do 2 f_equal. lia. }
  rewrite HM.
  destruct (N.eqb_spec (p * 2 ^ (52 - L)) (2 ^ 53)) as [E|_]; [lia|].
  cbn [fst snd].
  destruct (N.eqb_spec (p * 2 ^ (52 - L)) 0) as [E|_]; [contradiction|].
  destruct (Z.ltb_spec 971 (Z.of_N L - 52)); [lia|]. reflexivity.
Qed.

Lemma Number_of_Z_exact (n : N) :
  n <= 2 ^ 53 -> Number_integer (Number_of_Z (Z.of_N n)) = Some (Z.of_N n).
Proof.
  intros Hn. unfold Number_of_Z.
  rewrite Z.abs_eq, N2Z.id by lia.
  destruct (Z.ltb_spec (Z.of_N n) 0) as [|_]; [lia|].
  destruct (N.eq_dec n 0) as [->|Hz]; [reflexivity|].
  destruct (N.eq_dec n (2 ^ 53)) as [->|Hmax]; [vm_compute; reflexivity|].
  rewrite float_of_ratio_integer by lia.
  assert (Hp : 0 < n) by lia.
  destruct (N.log2_spec n Hp) as [Hlo Hhi].
  assert (HL : N.log2 n <= 52).
  { apply N.lt_succ_r. apply (N.pow_lt_mono_r_iff 2); [lia|].
    eapply N.le_lt_trans; [exact Hlo | lia]. }
  unfold Number_integer.
  destruct (Z.leb_spec 0 (Z.of_N (N.log2 n) - 52)).
  - assert (N.log2 n = 52) as -> by lia. cbn. do 2 f_equal. lia.
  - replace (Z.to_N (- (Z.of_N (N.log2 n) - 52))) with (52 - N.log2 n) by lia.
    assert (H2 : 2 ^ (52 - N.log2 n) <> 0) by (apply N.pow_nonzero; lia).
    rewrite N.Div0.mod_mul, N.div_mul by exact H2. reflexivity.
Qed.

(** Beyond 2^53 the Number is the nearest one: 2^53 + 1 is read as
    2^53. *)
Example Number_of_Z_beyond :
  Number_integer (Number_of_Z 9007199254740993) = Some 9007199254740992%Z.
Proof. vm_compute. reflexivity. Qed.

(** X17. The delay [run] uses is the number the delay text starts with: the
    digits up to the first character that is not a digit; what follows
    them is not looked at.  This for digits that denote at most 2^53:
    the Number [parseInt] returns for them is that integer exactly. *)
Theorem delay_is_the_leading_digits :
  forall (inputs : ActionInputs) (ds rest : JSString),
  delay_text inputs = ds ++ rest ->
  ds <> [] ->
  all_digits ds ->
  no_digit_ahead rest ->
  digits_value ds <= 2 ^ 53 ->
  parseInt (delay_text inputs) = Some (Z.of_N (digits_value ds))
  /\ Number_integer (Number_of_Z (Z.of_N (digits_value ds)))
     = Some (Z.of_N (digits_value ds)).
Proof.
  intros inputs ds rest -> Hne Hds Hrest Hmax. split.
  - now apply parseInt_leading_digits.
  - now apply Number_of_Z_exact.
Qed.

Lemma delay_is_the_leading_digits_witness :
  parseInt (delay_text (inputs_with_delay (js "30 seconds"))) = Some 30%Z
  /\ Number_integer (Number_of_Z 30) = Some 30%Z.
Proof.
  refine (@delay_is_the_leading_digits (inputs_with_delay (js "30 seconds"))
            (js "30") (js " seconds") _ _ _ _ _).
  - reflexivity.
  - discriminate.
  - repeat constructor.
  - reflexivity.
  - vm_compute. discriminate.
Defined.

Definition digit_step (acc c : N) : N := acc * 10 + (c - 48).

Lemma digits_fuel_spec fuel :
  forall n acc,
  n < 2 ^ N.of_nat (S fuel) ->
  exists ds,
    digits_fuel (S fuel) n acc = ds ++ acc
    /\ ds <> []
    /\ all_digits ds
    /\ forall init, fold_left digit_step ds init = init * 10 ^ N.of_nat (length ds) + n.
Proof.
  assert (Hdigit : forall n, is_digit (48 + n mod 10) = true).
  { intros n. pose proof (N.mod_lt n 10 ltac:(lia)) as Hm.
    unfold is_digit. rewrite andb_true_iff, !N.leb_le.
    generalize dependent (n mod 10). intros. lia. }
  assert (Hlast : forall n init,
             fold_left digit_step [48 + n mod 10] init = init * 10 + n mod 10).
  { intros n init. cbn [fold_left]. unfold digit_step.
    generalize (n mod 10). intros. lia. }
  induction fuel as [|fuel IH]; intros n acc Hn.
  - exists [48 + n mod 10]. cbn [digits_fuel].
    change (2 ^ N.of_nat 1) with 2 in Hn.
    assert (Hq : n / 10 = 0) by (apply N.div_small; lia).
    rewrite Hq. cbn [N.eqb]. split; [reflexivity|]. split; [discriminate|].
    split; [repeat constructor; apply Hdigit|].
    intros init. rewrite Hlast. rewrite N.mod_small by lia.
    change (10 ^ N.of_nat (length [48 + n])) with 10. reflexivity.
  - change (digits_fuel (S (S fuel)) n acc)
      with (if n / 10 =? 0 then (48 + n mod 10) :: acc
            else digits_fuel (S fuel) (n / 10) ((48 + n mod 10) :: acc)).
    pose proof (N.div_mod n 10 ltac:(lia)) as Hdm.
    pose proof (N.mod_lt n 10 ltac:(lia)) as Hm.
    destruct (n / 10 =? 0) eqn:Hq.
    + apply N.eqb_eq in Hq. exists [48 + n mod 10].
      split; [reflexivity|]. split; [discriminate|].
      split; [repeat constructor; apply Hdigit|].
      intros init. rewrite Hlast.
      change (10 ^ N.of_nat (length [48 + n mod 10])) with 10. lia.
    + assert (Hlt : n / 10 < 2 ^ N.of_nat (S fuel)).
      { rewrite Nat2N.inj_succ, N.pow_succ_r' in Hn.
        generalize dependent (n / 10). generalize dependent (n mod 10).
        generalize dependent (2 ^ N.of_nat (S fuel)). intros. lia. }
      destruct (IH (n / 10) ((48 + n mod 10) :: acc) Hlt) as (ds & -> & _ & Hds & Hv).
      exists (ds ++ [48 + n mod 10]).
      split; [now rewrite <- app_assoc|].
      split; [now destruct ds|].
      split; [apply Forall_app; split; [exact Hds | repeat constructor; apply Hdigit]|].
      intros init. rewrite fold_left_app, Hlast, Hv.
      rewrite length_app, Nat2N.inj_add. cbn [length].
      change (N.of_nat 1) with 1. rewrite N.pow_add_r, N.pow_1_r.
      generalize dependent (n / 10). generalize dependent (n mod 10).
      generalize dependent (10 ^ N.of_nat (length ds)). intros. lia.
Qed.

Lemma decimal_spec n :
  decimal n <> [] /\ all_digits (decimal n) /\ digits_value (decimal n) = n.
Proof.
  unfold decimal.
  assert (Hn : n < 2 ^ N.of_nat (S (N.to_nat (N.log2 n)))).
  { rewrite Nat2N.inj_succ, N2Nat.id.
    destruct n as [|p]; [reflexivity|]. apply N.log2_spec. reflexivity. }
  destruct (digits_fuel_spec [] Hn) as (ds & -> & Hne & Hds & Hv).
  rewrite app_nil_r. split; [exact Hne|]. split; [exact Hds|].
  unfold digits_value. change (fun acc c => acc * 10 + (c - 48)) with digit_step.
  rewrite Hv. lia.
Qed.

Lemma is_digit_not_space c : is_digit c = true -> is_space c = false.
Proof.
  intros Hc.
  destruct (is_digit_cases c Hc) as [->|[->|[->|[->|[->|[->|[->|[->|[->| ->]]]]]]]]];
    reflexivity.
Qed.

Lemma trimStart_digit c s : is_digit c = true -> trimStart (c :: s) = c :: s.
Proof. intros Hc. simpl. now rewrite (is_digit_not_space c Hc). Qed.

Lemma trim_digits ds : all_digits ds -> trim ds = ds.
Proof.
  intros Hds. unfold trim.
  assert (Hs : forall l, all_digits l -> trimStart l = l).
  { intros l Hl. destruct Hl as [|c l Hc Hl]; [reflexivity | now apply trimStart_digit]. }
  rewrite (Hs ds Hds), Hs, rev_involutive; [reflexivity|].
  apply Forall_rev. exact Hds.
Qed.

(** X18. A delay given in decimal is read back as that number: for the input
    [String(n)], with [n] at most 2^53, [run] takes the delay to be [n],
    and the Number [parseInt] returns is [n] exactly. *)
Theorem decimal_delay_is_read_back :
  forall (inputs : ActionInputs) (n : N),
  n <= 2 ^ 53 ->
  in_delay_seconds inputs = decimal n ->
  parseInt (delay_text inputs) = Some (Z.of_N n)
  /\ Number_integer (Number_of_Z (Z.of_N n)) = Some (Z.of_N n).
Proof.
  intros inputs n Hmax Hd. split; [|now apply Number_of_Z_exact].
  destruct (decimal_spec n) as (Hne & Hds & Hv).
  unfold delay_text. rewrite Hd, (trim_digits Hds).
  unfold orElse. rewrite (nonempty_cons Hne).
  rewrite <- (app_nil_r (decimal n)).
  rewrite parseInt_leading_digits by (try exact I; assumption).
  now rewrite Hv.
Qed.

Lemma decimal_delay_is_read_back_witness :
  parseInt (delay_text (inputs_with_delay (js "900"))) = Some 900%Z
  /\ Number_integer (Number_of_Z 900) = Some 900%Z.
Proof.
  refine (@decimal_delay_is_read_back (inputs_with_delay (js "900")) 900 _ _).
  - vm_compute. discriminate.
  - reflexivity.
Defined.
